(** * Verification of the http-proxy filter pipeline and usage reporter.

    Shallow embedding of
    - [versioncheck/checker.go] (VersionChecker: New, Dialer, Apply,
      redirect, redirectOnConnect, shouldRedirect, shouldRedirectOnConnect,
      matchVersion), with the library functions it calls ([semver.Make],
      [net.SplitHostPort], the float64 conversion of [New]),
    - the token filter ([tokenFilter.Apply], [mimicApache]),
    - the port admission filter (only its test is part of the sources),
    - the Redis usage reporter ([NewMeasuredReporter],
      [reportPeriodically], [submit]) and the calendar arithmetic of Go's
      [time] package that [submit] uses. *)

From Stdlib Require Import ZArith QArith Lia List String Ascii Bool.
From stdpp Require Import base gmap strings list.
Import ListNotations.
Open Scope Z_scope.

(* ------------------------------------------------------------------ *)
(** ** Go's [net/http] data: headers, requests, responses *)

(** [http.Header] is [map[string][]string]; keys are kept canonical. *)
Abbreviation Header := (gmap string (list string)).

(** [Header.Get]: first value of the key, or "" when absent. *)
Definition header_get (h : Header) (k : string) : string :=
  match h !! k with
  | Some (v :: _) => v
  | _ => EmptyString
  end.

(** [Header.Del]. *)
Definition header_del (h : Header) (k : string) : Header := delete k h.

Record Request := mkRequest {
  req_method : string;
  req_host : string;     (* [req.Host]; "host:port" for CONNECT *)
  req_header : Header;
}.

Definition with_header (r : Request) (h : Header) : Request :=
  mkRequest (req_method r) (req_host r) h.

Record Response := mkResponse {
  resp_status : Z;
  resp_header : Header;
  resp_close : bool;
}.

Definition MethodConnect : string := "CONNECT".
Definition MethodGet : string := "GET".
Definition StatusOK : Z := 200.
Definition StatusFound : Z := 302.
Definition StatusBadRequest : Z := 400.
Definition StatusForbidden : Z := 403.

(** [common.VersionHeader] and [common.TokenHeader]. *)
Definition VersionHeader : string := "X-Lantern-Version".
Definition TokenHeader : string := "X-Lantern-Auth-Token".

(** [strings.HasPrefix]. *)
Definition has_prefix (s prefix : string) : bool :=
  String.prefix prefix s.

(* ------------------------------------------------------------------ *)
(** ** github.com/blang/semver: versions and [Make]

    The library is not part of this repository; this is a model of its
    [Parse] (which [Make] calls) following the library's algorithm:
    split at the first two dots, decimal numbers without leading zeroes,
    then "+build" and "-prerelease" suffixes of the patch part.
    A [semver.Range] is literally [func(Version) bool] in Go. *)

Inductive PRVersion :=
  | PRNum (n : Z)
  | PRStr (s : string).

Record Version := mkVersion {
  v_major : Z; v_minor : Z; v_patch : Z;
  v_pre : list PRVersion; v_build : list string;
}.

Definition Range := Version -> bool.

Definition is_digit (c : ascii) : bool :=
  let n := nat_of_ascii c in (48 <=? n)%nat && (n <=? 57)%nat.

Definition is_alnum_dash (c : ascii) : bool :=
  let n := nat_of_ascii c in
  is_digit c || ((65 <=? n)%nat && (n <=? 90)%nat)
  || ((97 <=? n)%nat && (n <=? 122)%nat) || (n =? 45)%nat.

Fixpoint str_forallb (p : ascii -> bool) (s : string) : bool :=
  match s with
  | EmptyString => true
  | String c s' => p c && str_forallb p s'
  end.

Fixpoint digits_value (s : string) (acc : Z) : Z :=
  match s with
  | EmptyString => acc
  | String c s' => digits_value s' (acc * 10 + (Z.of_nat (nat_of_ascii c) - 48))
  end.

(** [containsOnly(s, numbers)] (true on ""), [hasLeadingZeroes],
    then [strconv.ParseUint(s, 10, 64)], which also fails on "" and on
    values above 2^64 - 1. *)
Definition parse_num (s : string) : option Z :=
  if negb (str_forallb is_digit s) then None
  else if (1 <? Z.of_nat (String.length s)) && String.prefix "0" s then None
  else if String.eqb s EmptyString then None
  else let v := digits_value s 0 in
       if v <? 2 ^ 64 then Some v else None.

(** [strings.Split(s, sep)] on a one-character separator. *)
Fixpoint split_on (sep : ascii) (s : string) : list string :=
  match s with
  | EmptyString => [EmptyString]
  | String c s' =>
      if Ascii.eqb c sep then EmptyString :: split_on sep s'
      else match split_on sep s' with
           | w :: ws => String c w :: ws
           | [] => [String c EmptyString]
           end
  end.

(** [strings.SplitN(s, ".", 3)]. *)
Definition splitn3_dot (s : string) : list string :=
  match split_on "."%char s with
  | a :: b :: c :: rest => [a; b; String.concat "." (c :: rest)]
  | l => l
  end.

(** [strings.IndexRune]: split at the first occurrence. *)
Fixpoint cut_at (sep : ascii) (s : string) : option (string * string) :=
  match s with
  | EmptyString => None
  | String c s' =>
      if Ascii.eqb c sep then Some (EmptyString, s')
      else match cut_at sep s' with
           | Some (a, b) => Some (String c a, b)
           | None => None
           end
  end.

(** [NewPRVersion]. *)
Definition new_pr_version (s : string) : option PRVersion :=
  if String.eqb s EmptyString then None
  else if str_forallb is_digit s then option_map PRNum (parse_num s)
  else if str_forallb is_alnum_dash s then Some (PRStr s)
  else None.

Fixpoint map_option {A B} (f : A -> option B) (l : list A) : option (list B) :=
  match l with
  | [] => Some []
  | x :: xs =>
      match f x, map_option f xs with
      | Some y, Some ys => Some (y :: ys)
      | _, _ => None
      end
  end.

(** [semver.Make] (= [semver.Parse]); [None] stands for a non-nil error. *)
Definition semver_make (s : string) : option Version :=
  if String.eqb s EmptyString then None else
  match splitn3_dot s with
  | [p0; p1; p2] =>
      match parse_num p0, parse_num p1 with
      | Some major, Some minor =>
          let '(p2', build) :=
            match cut_at "+"%char p2 with
            | Some (a, b) => (a, split_on "."%char b)
            | None => (p2, [])
            end in
          let '(patchStr, pre) :=
            match cut_at "-"%char p2' with
            | Some (a, b) => (a, split_on "."%char b)
            | None => (p2', [])
            end in
          match parse_num patchStr, map_option new_pr_version pre with
          | Some patch, Some prs =>
              if forallb (fun b => negb (String.eqb b EmptyString)
                                   && str_forallb is_alnum_dash b) build
              then Some (mkVersion major minor patch prs build)
              else None
          | _, _ => None
          end
      | _, _ => None
      end
  | _ => None
  end.

(** Core-version comparison, used to build concrete ranges such as
    [semver.ParseRange("<3.0.0")] for versions without pre-release. *)
Definition core_lt (a b : Version) : bool :=
  (v_major a <? v_major b)
  || ((v_major a =? v_major b) && ((v_minor a <? v_minor b)
      || ((v_minor a =? v_minor b) && (v_patch a <? v_patch b)))).

(* ------------------------------------------------------------------ *)
(** ** float64 arithmetic of [New]: [int(percentage * oneMillion)]

    A finite float64 is [f_mant * 2 ^ f_exp] with [|f_mant| < 2 ^ 53].
    [oneMillion] becomes the float64 [15625 * 2 ^ 6] (exact).  The product
    is rounded to 53 significant bits, to nearest, ties to even.  Results
    in the subnormal range are not re-rounded: they lie below 1 in
    magnitude and truncate to 0 either way. *)

Record F64 := mkF64 { f_mant : Z; f_exp : Z }.

Definition f64_valid (f : F64) : Prop := Z.abs (f_mant f) < 2 ^ 53.

(** Round the magnitude [M > 0] to 53 bits: (mantissa, extra exponent). *)
Definition round53_pos (M : Z) : Z * Z :=
  if M <? 2 ^ 53 then (M, 0)
  else
    let k := Z.log2 M - 52 in
    let q := M / 2 ^ k in
    let r := M mod 2 ^ k in
    let half := 2 ^ (k - 1) in
    if (half <? r) || ((r =? half) && Z.odd q) then (q + 1, k) else (q, k).

Definition f64_round (M E : Z) : F64 :=
  let '(q, k) := round53_pos (Z.abs M) in
  mkF64 (Z.sgn M * q) (E + k).

Definition oneMillion : Z := 100 * 100 * 100.

(** [percentage * oneMillion] in float64. *)
Definition f64_mul_oneMillion (p : F64) : F64 :=
  f64_round (f_mant p * 15625) (f_exp p + 6).

(** Truncation toward zero of a float64 value. *)
Definition f64_trunc (f : F64) : Z :=
  if 0 <=? f_exp f then f_mant f * 2 ^ f_exp f
  else Z.quot (f_mant f) (2 ^ (- f_exp f)).

(** Go's [int(f)] for a float64 [f] on amd64 (64-bit [int]): the value is
    truncated toward zero; when it is not representable the Go
    specification leaves the result implementation-dependent, and the
    amd64 instruction used (CVTTSD2SQ) yields the minimum int64. *)
Definition go_int_of_float64 (f : F64) : Z :=
  let t := f64_trunc f in
  if (- 2 ^ 63 <=? t) && (t <? 2 ^ 63) then t else - 2 ^ 63.

(* ------------------------------------------------------------------ *)
(** ** [net.SplitHostPort] *)

Fixpoint last_index_acc (c : ascii) (l : list ascii) (i : nat) (acc : option nat)
  : option nat :=
  match l with
  | [] => acc
  | x :: l' => last_index_acc c l' (S i) (if Ascii.eqb x c then Some i else acc)
  end.

Definition last_index (c : ascii) (l : list ascii) : option nat :=
  last_index_acc c l 0 None.

Fixpoint first_index (c : ascii) (l : list ascii) : option nat :=
  match l with
  | [] => None
  | x :: l' => if Ascii.eqb x c then Some 0%nat else option_map S (first_index c l')
  end.

Definition contains (c : ascii) (l : list ascii) : bool :=
  match first_index c l with Some _ => true | None => false end.

(** Returns [inr (host, port)] or [inl err]. *)
Definition split_host_port (hostport : string) : string + (string * string) :=
  let l := list_ascii_of_string hostport in
  match last_index ":"%char l with
  | None => inl "missing port in address"%string
  | Some i =>
      let hk :=
        match l with
        | "["%char :: _ =>
            match first_index "]"%char l with
            | None => inl "missing ']' in address"%string
            | Some e =>
                if Nat.eqb (S e) (length l) then inl "missing port in address"%string
                else if Nat.eqb (S e) i then
                  inr (string_of_list_ascii (take (e - 1) (drop 1 l)), 1%nat, S e)
                else if bool_decide (l !! S e = Some ":"%char)
                then inl "too many colons in address"%string
                else inl "missing port in address"%string
            end
        | _ =>
            let host := take i l in
            if contains ":"%char host then inl "too many colons in address"%string
            else inr (string_of_list_ascii host, 0%nat, 0%nat)
        end in
      match hk with
      | inl err => inl err
      | inr (host, j, k) =>
          if contains "["%char (drop j l) then inl "unexpected '[' in address"%string
          else if contains "]"%char (drop k l) then inl "unexpected ']' in address"%string
          else inr (host, string_of_list_ascii (drop (S i) l))
      end
  end.

(* ------------------------------------------------------------------ *)
(** ** versioncheck: [VersionChecker] and [New] *)

(** The fields of a parsed [*url.URL] that the checker reads. *)
Record URL := mkURL { url_scheme : string; url_host : string }.

Record VersionChecker := mkVersionChecker {
  versionRange : Range;
  rewriteURL : URL;
  rewriteURLString : string;
  rewriteAddr : string;
  tunnelPorts : list string;
  ppm : Z;
}.

(** [New]: [parsed_url] is the result of [url.Parse(rewriteURL)] and
    [parsed_range] that of [semver.ParseRange(versionRange)] ([None] for a
    non-nil error). *)
Definition New (parsed_range : option Range) (rewriteURLs : string)
    (parsed_url : option URL) (tunnelPortsToCheck : list string)
    (percentage : F64) : option VersionChecker :=
  match parsed_url with
  | None => None
  | Some u =>
      let rewriteAddr0 := url_host u in
      let rewriteAddr1 :=
        if String.eqb (url_scheme u) "https" then (rewriteAddr0 ++ ":443")%string
        else rewriteAddr0 in
      let ports := match tunnelPortsToCheck with [] => ["80"%string] | _ => tunnelPortsToCheck end in
      match parsed_range with
      | None => None
      | Some ver =>
          Some (mkVersionChecker ver u rewriteURLs rewriteAddr1 ports
                  (go_int_of_float64 (f64_mul_oneMillion percentage)))
      end
  end.

Section Checker.
Variable c : VersionChecker.

(** [matchVersion]; [draw] is the value of [random.Intn(oneMillion)]. *)
Definition matchVersion (req : Request) (draw : Z) : bool :=
  if String.eqb (req_host req) (url_host (rewriteURL c)) then false
  else
    let version := header_get (req_header req) VersionHeader in
    let reject_by_version :=
      match semver_make version with
      | Some v => negb (versionRange c v)
      | None => false
      end in
    if reject_by_version then false
    else if draw >=? ppm c then false
    else true.

(** [shouldRedirect] (GET). *)
Definition shouldRedirect (req : Request) (draw : Z) : bool :=
  if negb (has_prefix (header_get (req_header req) "Accept") "text/html") then false
  else if negb (has_prefix (header_get (req_header req) "User-Agent") "Mozilla/") then false
  else matchVersion req draw.

(** [shouldRedirectOnConnect]. *)
Definition shouldRedirectOnConnect (req : Request) (draw : Z) : bool :=
  if negb (matchVersion req draw) then false
  else match split_host_port (req_host req) with
       | inl _ => false
       | inr (_, port) => existsb (String.eqb port) (tunnelPorts c)
       end.

(** [redirect]: the 302 reply. *)
Definition redirect_response : Response :=
  mkResponse StatusFound {[ "Location"%string := [rewriteURLString c] ]} true.

(** The acknowledgement written by [redirectOnConnect]. *)
Definition connect_ok_response : Response := mkResponse StatusOK ∅ false.

End Checker.

(** *** Effects of [Apply]

    The downstream connection and the rest of the chain are the
    environment: whether writing to the connection succeeds, what
    [http.ReadRequest] returns on it ([inl err]: error, [inr r]: request),
    and what [next(ctx, req)] returns. *)

Record Env := mkEnv {
  conn_write_ok : bool;
  conn_read : string + Request;
  env_next : Request -> option Response * option string;
}.

Inductive Event :=
  | EvConnWrite (r : Response)   (* bytes written on [ctx.DownstreamConn()] *)
  | EvLogError (msg : string)
  | EvNext (r : Request).        (* [next] called; the request as it is then *)

(** How a Go call ends: a return with a response and an error, or a
    run-time panic. *)
Inductive Outcome :=
  | Returned (resp : option Response) (err : option string)
  | Panicked.

(** [http.ReadRequest] returns a nil [*Request] with its error. *)
Definition read_request (e : Env) : option Request * option string :=
  match conn_read e with
  | inl err => (None, Some err)
  | inr r => (Some r, None)
  end.

(** [redirectOnConnect].  [req.Body] on a nil [*http.Request] is a nil
    pointer dereference. *)
Definition redirectOnConnect (c : VersionChecker) (e : Env) : Outcome * list Event :=
  if negb (conn_write_ok e) then
    (Returned None (Some "write error"%string), [])
  else
    let evs0 := [EvConnWrite connect_ok_response] in
    let '(req, err) := read_request e in
    let evs1 := match err with
                | Some m => evs0 ++ [EvLogError m]
                | None => evs0
                end in
    match req with
    | None => (Panicked, evs1)
    | Some _ => (Returned (Some (redirect_response c)) None, evs1)
    end.

(** [Apply]: [defer req.Header.Del(common.VersionHeader)] runs when the
    function returns or panics, after [next] or the redirect. The third
    component is the request as the caller sees it afterwards. *)
Definition Apply (c : VersionChecker) (e : Env) (req : Request) (draw : Z)
  : Outcome * list Event * Request :=
  let deferred := with_header req (header_del (req_header req) VersionHeader) in
  let call_next :=
    let '(resp, err) := env_next e req in (Returned resp err, [EvNext req]) in
  let '(out, evs) :=
    if String.eqb (req_method req) MethodConnect then
      if shouldRedirectOnConnect c req draw then redirectOnConnect c e
      else call_next
    else if String.eqb (req_method req) MethodGet then
      if shouldRedirect c req draw then (Returned (Some (redirect_response c)) None, [])
      else call_next
    else call_next in
  (out, evs, deferred).

(** *** [Dialer]

    A [net.Conn] as the dialer sees it: nil, a connection returned by the
    wrapped [Dial], or [tls.Client(conn, &tls.Config{ServerName: name})]. *)
Inductive Conn :=
  | NilConn
  | NetConn (id : Z)
  | TLSClient (serverName : string) (inner : Conn).

(** [type Dial func(network, address string) (net.Conn, error)]. *)
Definition Dial := string -> string -> Conn * option string.

(** [VersionChecker.Dialer]. *)
Definition Dialer (c : VersionChecker) (d : Dial) : Dial :=
  if negb (String.eqb (url_scheme (rewriteURL c)) "https") then d
  else fun network address =>
    let '(conn, err) := d network address in
    match err with
    | Some _ => (conn, err)
    | None =>
        if String.eqb (rewriteAddr c) address
        then (TLSClient (url_host (rewriteURL c)) conn, err)
        else (conn, err)
    end.

(* ------------------------------------------------------------------ *)
(** ** tokenfilter: [tokenFilter.Apply] *)

Inductive TEvent :=
  | TEvInstrumentMimic (mimicking : bool)  (* [f.instrument.Mimic(b)] *)
  | TEvMimicApache                         (* [mimic.Apache(conn, req)] *)
  | TEvConnClose                           (* [conn.Close()] *)
  | TEvNext (r : Request).

(** [mimicApache]: writes the decoy response, closes, returns nil. *)
Definition mimicApache : Outcome * list TEvent :=
  (Returned None None, [TEvMimicApache; TEvConnClose]).

(** [tokenFilter.Apply] with [token] the configured secret and [next] the
    rest of the chain. *)
Definition token_apply (token : string)
    (next : Request -> option Response * option string) (req : Request)
  : Outcome * list TEvent :=
  let call_next (r : Request) :=
    let '(resp, err) := next r in (Returned resp err, [TEvNext r]) in
  if String.eqb token EmptyString then call_next req
  else
    let tokens := req_header req !! TokenHeader in
    let no_token :=
      match tokens with
      | None => true
      | Some [] => true
      | Some (t0 :: _) => String.eqb t0 EmptyString
      end in
    if no_token then
      let '(o, evs) := mimicApache in (o, TEvInstrumentMimic true :: evs)
    else
      let tokenMatched := existsb (String.eqb token) (default [] tokens) in
      if tokenMatched then
        let req' := with_header req (header_del (req_header req) TokenHeader) in
        let '(o, evs) := call_next req' in (o, TEvInstrumentMimic false :: evs)
      else
        let '(o, evs) := mimicApache in (o, TEvInstrumentMimic true :: evs).

(* ------------------------------------------------------------------ *)
(** ** tunnelportsfilter: the port admission filter

    Modelled from the spec: the filter's own source (tunnelportsfilter.go)
    is not among the sources, only its test.  Section 4.1 of the spec:
    for CONNECT, split the target as host:port; no split, an empty port or
    a port that is not a valid integer gives Reply(400), close; a port not
    in the allowed set gives Reply(403), close; an allowed port gives
    Continue(request unchanged).  Other methods pass through. *)

Inductive Decision :=
  | Continue (r : Request)
  | Reply (status : Z) (close : bool)
  | Hijack.

(** A valid integer: optional sign, then at least one decimal digit
    (the syntax of Go's [strconv.Atoi]), within the 64-bit [int]. *)
Definition parse_int (s : string) : option Z :=
  let '(neg, digits) :=
    match s with
    | String "-"%char rest => (true, rest)
    | String "+"%char rest => (false, rest)
    | _ => (false, s)
    end in
  if String.eqb digits EmptyString || negb (str_forallb is_digit digits) then None
  else
    let v := if neg then - digits_value digits 0 else digits_value digits 0 in
    if (- 2 ^ 63 <=? v) && (v <? 2 ^ 63) then Some v else None.

(** Outcome of parsing the CONNECT target's port. *)
Definition connect_port (target : string) : option Z :=
  match split_host_port target with
  | inl _ => None
  | inr (_, port) => if String.eqb port EmptyString then None else parse_int port
  end.

Definition port_filter (allowed : list Z) (req : Request) : Decision :=
  if negb (String.eqb (req_method req) MethodConnect) then Continue req
  else match connect_port (req_host req) with
       | None => Reply StatusBadRequest true
       | Some p =>
           if existsb (Z.eqb p) allowed then Continue req
           else Reply StatusForbidden true
       end.

(* ------------------------------------------------------------------ *)
(** ** Calendar arithmetic of Go's [time] package

    Instants are nanoseconds since the Unix epoch; a [time.Location] with
    a fixed offset is that offset in nanoseconds.  Civil dates are those of
    the proleptic Gregorian calendar (the one Go's [time] uses), counted
    in days from 0000-01-01. *)

Definition ns_per_day : Z := 86400 * 1000000000.

Definition is_leap (y : Z) : bool :=
  ((y mod 4 =? 0) && negb (y mod 100 =? 0)) || (y mod 400 =? 0).

(** Days from 0000-01-01 to y-01-01 (leap years counted before [y]). *)
Definition days_before_year (y : Z) : Z :=
  365 * y + (y + 3) / 4 - (y + 99) / 100 + (y + 399) / 400.

(** Days from January 1st to the first of month [m] (1 .. 13). *)
Definition days_before_month (leap : bool) (m : Z) : Z :=
  nth (Z.to_nat (m - 1)) [0; 31; 59; 90; 120; 151; 181; 212; 243; 273; 304; 334; 365] 0
  + (if leap && (2 <? m) then 1 else 0).

(** Days from 0000-01-01 to 1970-01-01. *)
Definition unix_epoch_days : Z := 719528.

(** The year containing day [D] (counted from 0000-01-01): an estimate
    from the mean year length, then corrected by one. *)
Definition year_of_days (D : Z) : Z :=
  let y0 := D * 400 / 146097 in
  if days_before_year (y0 + 1) <=? D then y0 + 1
  else if D <? days_before_year y0 then y0 - 1
  else y0.

(** The month containing day [doy] (0-based) of a year. *)
Definition month_of_doy (leap : bool) (doy : Z) : Z :=
  match List.find (fun m => days_before_month leap m <=? doy)
          [12; 11; 10; 9; 8; 7; 6; 5; 4; 3; 2; 1] with
  | Some m => m
  | None => 1
  end.

(** Day number (days since 1970-01-01) of a civil date. *)
Definition days_from_civil (y m d : Z) : Z :=
  days_before_year y + days_before_month (is_leap y) m + d - 1 - unix_epoch_days.

(** Civil date (year, month, day) of a day number. *)
Definition civil_from_days (z : Z) : Z * Z * Z :=
  let D := z + unix_epoch_days in
  let y := year_of_days D in
  let doy := D - days_before_year y in
  let m := month_of_doy (is_leap y) doy in
  (y, m, doy - days_before_month (is_leap y) m + 1).

(** [t.Year()] and [t.Month()] in a location of one fixed offset [loc]
    (nanoseconds east of UTC), such as one made by [time.FixedZone]. *)
Definition year_month (loc t : Z) : Z * Z :=
  let '(y, m, _) := civil_from_days ((t + loc) / ns_per_day) in (y, m).

(** [time.Date(y, m, d, 0, 0, 0, 0, loc)] for a valid date, in a location
    of one fixed offset [loc]. *)
Definition date_midnight (loc y m d : Z) : Z :=
  days_from_civil y m d * ns_per_day - loc.

(* ------------------------------------------------------------------ *)
(** ** [time.Location], [time.Date], [Time.Unix]

    An instant is a count of nanoseconds since the Unix epoch. *)

Definition ns_per_s : Z := 1000000000.

(** The bounds of an unbounded zone period in [Location.lookup]. *)
Definition alpha : Z := - 2 ^ 63.
Definition omega : Z := 2 ^ 63 - 1.

(** A location: the offset (seconds east of UTC) in force before its
    first transition (the zone [lookupFirstZone] picks), and its
    transitions, each the Unix second it takes effect and the offset from
    then on, in increasing order.  The periods that the rule of a
    [zoneinfo] file generates after its table ([extend]) are transitions
    of the list as well. *)
Record Location := mkLocation {
  zoneFirst : Z;
  zoneTrans : list (Z * Z);
}.

(** [l.lookup(sec)]: the offset in force at Unix second [sec], with the
    start and the end of its period.  On an increasing table the binary
    search of the source stops at the same transition as this scan: the
    last one at or before [sec]. *)
Fixpoint lookup_trans (offset start : Z) (tx : list (Z * Z)) (sec : Z) : Z * Z * Z :=
  match tx with
  | [] => (offset, start, omega)
  | (when, offset') :: tx' =>
      if sec <? when then (offset, start, when)
      else lookup_trans offset' when tx' sec
  end.

Definition lookup (l : Location) (sec : Z) : Z * Z * Z :=
  lookup_trans (zoneFirst l) alpha (zoneTrans l) sec.

Definition offset_at (l : Location) (sec : Z) : Z :=
  let '(offset, _, _) := lookup l sec in offset.

(** [t.Unix()]: the Unix second of [t], rounded down. *)
Definition time_unix (t : Z) : Z := t / ns_per_s.

(** [t.Year()] and [t.Month()] of [t] in location [l] ([locabs]): the
    offset in force at [t]'s second is added before the calendar is read. *)
Definition loc_year_month (l : Location) (t : Z) : Z * Z :=
  let sec := time_unix t in
  let '(y, m, _) := civil_from_days ((sec + offset_at l sec) / 86400) in (y, m).

(** [time.Date(year, month, day, 0, 0, 0, 0, l)] for [1 <= month <= 12]
    and a day of that month: the wall clock read as UTC is looked up,
    and when the UTC instant this gives leaves the period found, the
    offset in force at that instant is used instead. *)
Definition time_Date (l : Location) (year month day : Z) : Z :=
  let unix := days_from_civil year month day * 86400 in
  let '(offset, start, end_) := lookup l unix in
  let offset' :=
    if offset =? 0 then 0
    else
      let utc := unix - offset in
      if (utc <? start) || (end_ <=? utc) then offset_at l utc else offset in
  (unix - offset') * ns_per_s.

(* ------------------------------------------------------------------ *)
(** ** redis usage reporter: [submit] and [reportPeriodically] *)

(** [measured.Stats] (the fields the reporter reads, Go [int]s). *)
Record Stats := mkStats { SentTotal : Z; RecvTotal : Z }.

(** A Redis hash ["_client:" + deviceID] with its expiry (Unix seconds). *)
Record Counter := mkCounter { bytesIn : Z; bytesOut : Z; expireAt : option Z }.

Abbreviation Store := (gmap string Counter).

Inductive REvent :=
  | REvExec (deviceID : string) (expire : Z) (ok : bool)
      (* one MULTI/EXEC: two HINCRBY and an EXPIREAT *)
  | REvUsageSet (deviceID : string) (total : Z) (at_ : Z)  (* [usage.Set] *)
  | REvLogError.

Definition clientKey (deviceID : string) : string := "_client:" ++ deviceID.

(** A 64-bit signed integer. *)
Definition int64_ok (z : Z) : bool := (- 2 ^ 63 <=? z) && (z <? 2 ^ 63).

(** Go's 64-bit [int] arithmetic: the result taken modulo [2^64] into
    [-2^63 .. 2^63 - 1]. *)
Definition wrap64 (z : Z) : Z := (z + 2 ^ 63) mod 2 ^ 64 - 2 ^ 63.

(** The queued commands of one transaction once EXEC runs them: HINCRBY
    of bytesIn and of bytesOut (a missing hash or field counts as 0; an
    increment whose result leaves the 64-bit range is refused by Redis
    and leaves its field alone) and EXPIREAT, which always applies.  The
    boolean is [true] when no command failed, else EXEC's reply carries
    the first command error, which [multi.Exec] returns. *)
Definition exec_tx (st : Store) (deviceID : string) (s : Stats) (expire : Z)
  : Store * bool :=
  let k := clientKey deviceID in
  let old := default (mkCounter 0 0 None) (st !! k) in
  let bin := bytesIn old + RecvTotal s in
  let bout := bytesOut old + SentTotal s in
  (<[k := mkCounter (if int64_ok bin then bin else bytesIn old)
                    (if int64_ok bout then bout else bytesOut old)
                    (Some expire)]> st,
   int64_ok bin && int64_ok bout).

(** The expiry computed at the top of [submit], in location [l]. *)
Definition endOfThisMonth (l : Location) (now : Z) : Z :=
  let '(year, month) := loc_year_month l now in
  let nextMonth0 := month + 1 in
  let nextYear0 := year in
  let '(nextMonth, nextYear) :=
    if nextMonth0 >? 12 then (1, nextYear0 + 1) else (nextMonth0, nextYear0) in
  let beginningOfNextMonth := time_Date l nextYear nextMonth 1 in
  beginningOfNextMonth - 1.

(** The [for deviceID, stats := range statsByDeviceID] loop of [submit],
    over the entries in the order the range visits them; [expire] is the
    argument of EXPIREAT.  [fail st d] tells whether EXEC fails as a whole
    (nothing applied) for device [d] when the store is [st].  The total
    given to [usage.Set] is [uint64(bytesIn + bytesOut)]: the 64-bit sum
    read as unsigned, that is the sum modulo [2^64]. *)
Fixpoint submit_loop (fail : Store -> string -> bool) (now expire : Z)
    (st : Store) (entries : list (string * Stats))
  : Store * list REvent * bool :=
  match entries with
  | [] => (st, [], false)
  | (deviceID, s) :: rest =>
      if fail st deviceID then (st, [REvExec deviceID expire false], true)
      else
        let '(st', ok) := exec_tx st deviceID s expire in
        if negb ok then (st', [REvExec deviceID expire false], true)
        else
          let c := default (mkCounter 0 0 None) (st' !! clientKey deviceID) in
          let '(st'', evs, err) := submit_loop fail now expire st' rest in
          (st'', REvExec deviceID expire true
                   :: REvUsageSet deviceID ((bytesIn c + bytesOut c) mod 2 ^ 64) now
                   :: evs, err)
  end.

(** [submit] at time [now] in location [l] ([now.Location()]); the
    boolean is [err != nil].  go-redis sends [ExpireAt(key, tm)] as
    [EXPIREAT key tm.Unix()]. *)
Definition submit (fail : Store -> string -> bool) (l : Location) (now : Z)
    (st : Store) (entries : list (string * Stats)) : Store * list REvent * bool :=
  submit_loop fail now (time_unix (endOfThisMonth l now)) st entries.

Record RState := mkRState {
  store : Store;
  statsByDeviceID : gmap string Stats;
}.

(** A value of the [ctx] map ([map[string]interface{}]): a string, or a
    non-nil value of another type. *)
Inductive CtxValue :=
  | CtxString (s : string)
  | CtxOther.

(** A [statsAndContext] received on [statsCh]: [ctx["deviceid"]] ([None]
    when absent or nil) and the delta stats.  [None] as result: the type
    assertion [_deviceID.(string)] panics.  The [+=] on the [int] fields
    wraps around. *)
Definition sample_step (dev : option CtxValue) (s : Stats) (rs : RState)
  : option RState :=
  match dev with
  | None => Some rs
  | Some CtxOther => None
  | Some (CtxString deviceID) =>
      match statsByDeviceID rs !! deviceID with
      | None => Some (mkRState (store rs) (<[deviceID := s]> (statsByDeviceID rs)))
      | Some ex =>
          Some (mkRState (store rs)
            (<[deviceID := mkStats (wrap64 (SentTotal ex + SentTotal s))
                                   (wrap64 (RecvTotal ex + RecvTotal s))]>
               (statsByDeviceID rs)))
      end
  end.

(** A tick of [ticker.C]: submit, log an error, reset the map.  [order]
    is the order in which the map is ranged over. *)
Definition tick_step (fail : Store -> string -> bool) (l : Location) (now : Z)
    (order : list (string * Stats)) (rs : RState) : RState * list REvent :=
  let '(st', evs, err) := submit fail l now (store rs) order in
  (mkRState st' ∅, if err then evs ++ [REvLogError] else evs).

Definition event_device (e : REvent) : option string :=
  match e with
  | REvExec d _ _ => Some d
  | REvUsageSet d _ _ => Some d
  | REvLogError => None
  end.

(** The [case sac := <-statsCh] branch of [reportPeriodically] over a
    sequence of received values ([None]: the goroutine panicked). *)
Fixpoint run_samples (l : list (option CtxValue * Stats)) (rs : RState)
  : option RState :=
  match l with
  | [] => Some rs
  | (dev, s) :: l' =>
      match sample_step dev s rs with
      | None => None
      | Some rs' => run_samples l' rs'
      end
  end.

(** Component-wise sum of stats in Go's [int]. *)
Definition stats_sum (l : list Stats) : Stats :=
  mkStats (wrap64 (fold_right (fun s a => SentTotal s + a) 0 l))
          (wrap64 (fold_right (fun s a => RecvTotal s + a) 0 l)).

(** The stats of the received values whose device is [d], in order. *)
Definition device_samples (d : string) (l : list (option CtxValue * Stats))
  : list Stats :=
  map snd (List.filter (fun '(o, _) =>
    match o with Some (CtxString d') => String.eqb d' d | _ => false end) l).

(* ------------------------------------------------------------------ *)
(** ** Concrete configurations and requests used below *)

(** [semver.ParseRange("<3.0.0")] on release versions. *)
Definition below3 : Range := fun v => core_lt v (mkVersion 3 0 0 [] []).

Definition example_url (scheme : string) : URL := mkURL scheme "upgrade.example.com".

Definition example_url_string (scheme : string) : string :=
  (scheme ++ "://upgrade.example.com/notice")%string.

(** The checker [New("<3.0.0", scheme + "://upgrade.example.com/notice",
    nil, pct)] builds. *)
Definition example_checker (scheme : string) (pct : F64) : VersionChecker :=
  mkVersionChecker below3 (example_url scheme) (example_url_string scheme)
    (if String.eqb scheme "https" then "upgrade.example.com:443"%string
     else "upgrade.example.com"%string)
    ["80"%string] (go_int_of_float64 (f64_mul_oneMillion pct)).

Definition pct_one : F64 := mkF64 1 0.          (* 1.0 *)
Definition pct_zero : F64 := mkF64 0 0.         (* 0.0 *)

(** A browser navigation: Accept text/html, User-Agent Mozilla/. *)
Definition browser_get (host : string) (version : option string) : Request :=
  mkRequest MethodGet host
    (match version with
     | Some v => <[VersionHeader := [v]]>
     | None => id
     end
     (<["Accept"%string := ["text/html,application/xhtml+xml"%string]]>
      {[ "User-Agent"%string := ["Mozilla/5.0"%string] ]})).

Definition connect_req (hostport : string) (version : option string) : Request :=
  mkRequest MethodConnect hostport
    (match version with
     | Some v => {[ VersionHeader := [v] ]}
     | None => ∅
     end).

(** Value of a float64 at least 1. *)
Definition f64_ge_one (p : F64) : bool :=
  if 0 <=? f_exp p then 1 <=? f_mant p * 2 ^ f_exp p
  else 2 ^ (- f_exp p) <=? f_mant p.




Definition utc_loc : Location := mkLocation 0 [].



Definition months : list Z := [1; 2; 3; 4; 5; 6; 7; 8; 9; 10; 11; 12].

Definition year_length (leap : bool) : Z := if leap then 366 else 365.

(** The month table starts at 0, ends at the year's length and is
    increasing, and [month_of_doy] finds the one month of every day of
    the year. *)
Definition month_table_ok (leap : bool) : bool :=
  (days_before_month leap 1 =? 0)
  && (days_before_month leap 13 =? year_length leap)
  && forallb (fun m => (0 <=? days_before_month leap m)
                       && (days_before_month leap m <? days_before_month leap (m + 1))
                       && (days_before_month leap (m + 1) <=? year_length leap)) months
  && forallb (fun i =>
       let doy := Z.of_nat i in
       let mo := month_of_doy leap doy in
       (1 <=? mo) && (mo <=? 12)
       && forallb (fun m =>
            Bool.eqb ((days_before_month leap m <=? doy)
                      && (doy <? days_before_month leap (m + 1)))
                     (mo =? m)) months)
     (seq 0 (Z.to_nat (year_length leap))).

(** Exact floor of the positive value [M * 2 ^ E]. *)
Definition floor_scaled (M E : Z) : Z :=
  if 0 <=? E then M * 2 ^ E else M / 2 ^ (- E).

(* ================================================================== *)
(** * Theorems *)

(* ------------------------------------------------------------------ *)
(** ** [New] and [matchVersion] *)

Lemma New_ppm (pr : option Range) (us : string) (pu : option URL)
    (ports : list string) (pct : F64) (c : VersionChecker) :
  New pr us pu ports pct = Some c ->
  ppm c = go_int_of_float64 (f64_mul_oneMillion pct).
Proof.
  unfold New. destruct pu as [u|]; [|discriminate].
  destruct pr as [r|]; [|discriminate]. intros H; injection H as <-. reflexivity.
Qed.

Lemma matchVersion_host_differs (c : VersionChecker) (req : Request) (draw : Z) :
  req_host req <> url_host (rewriteURL c) ->
  matchVersion c req draw =
    (match semver_make (header_get (req_header req) VersionHeader) with
     | Some v => versionRange c v
     | None => true
     end && negb (draw >=? ppm c)).
Proof.
  intros Hne. unfold matchVersion.
  destruct (String.eqb_spec (req_host req) (url_host (rewriteURL c))); [contradiction|].
  destruct (semver_make _) as [v|]; [destruct (versionRange c v)|];
    simpl; destruct (draw >=? ppm c); reflexivity.
Qed.

(** C2 (amended). A client whose version header parses to a version
    outside the configured range is never selected by [matchVersion]; a
    client whose version is inside the range, or missing or unparseable,
    goes on to the sampling step (when its target host is not the rewrite
    host), where it is selected exactly when the draw is below the
    threshold. *)
Theorem matchVersion_version_gate (c : VersionChecker) (req : Request) (draw : Z) :
  (forall v, semver_make (header_get (req_header req) VersionHeader) = Some v ->
             versionRange c v = false -> matchVersion c req draw = false) /\
  (req_host req <> url_host (rewriteURL c) ->
   (forall v, semver_make (header_get (req_header req) VersionHeader) = Some v ->
              versionRange c v = true) ->
   matchVersion c req draw = negb (draw >=? ppm c)).
Proof.
  split.
  - intros v Hv Hr. unfold matchVersion.
    destruct (String.eqb _ _); [reflexivity|]. rewrite Hv, Hr. reflexivity.
  - intros Hne Hin. rewrite matchVersion_host_differs by exact Hne.
    destruct (semver_make _) as [v|] eqn:Hv; [rewrite (Hin v eq_refl)|]; reflexivity.
Qed.

Lemma matchVersion_version_gate_witness :
  semver_make "4.0.0" = Some (mkVersion 4 0 0 [] []) /\
  matchVersion (example_checker "https" pct_one)
    (browser_get "www.example.com" (Some "4.0.0")) 0 = false /\
  matchVersion (example_checker "https" pct_one)
    (browser_get "www.example.com" None) 0 = true.
Proof.
  split; [reflexivity|]. split.
  - apply (proj1 (matchVersion_version_gate (example_checker "https" pct_one)
                    (browser_get "www.example.com" (Some "4.0.0")) 0)
             (mkVersion 4 0 0 [] [])); reflexivity.
  - rewrite (proj2 (matchVersion_version_gate (example_checker "https" pct_one)
                      (browser_get "www.example.com" None) 0)).
    + reflexivity.
    + discriminate.
    + intros v Hv. discriminate Hv.
Defined.

(** C2 (counterexample). The version "2.0.0" parses and lies inside the
    range "<3.0.0", yet [matchVersion] selects the request (sampling rate
    1.0, draw 0) and [Apply] answers it with the 302 redirect. *)
Lemma matchVersion_in_range_selected :
  New (Some below3) (example_url_string "https") (Some (example_url "https")) []
      pct_one = Some (example_checker "https" pct_one) /\
  semver_make "2.0.0" = Some (mkVersion 2 0 0 [] []) /\
  below3 (mkVersion 2 0 0 [] []) = true /\
  matchVersion (example_checker "https" pct_one)
    (browser_get "www.example.com" (Some "2.0.0")) 0 = true /\
  fst (fst (Apply (example_checker "https" pct_one)
                  (mkEnv true (inl "EOF"%string) (fun _ => (None, None)))
                  (browser_get "www.example.com" (Some "2.0.0")) 0))
    = Returned (Some (redirect_response (example_checker "https" pct_one))) None.
Proof. repeat split; reflexivity. Qed.

(** C6 (failing input). With the rewrite URL
    "http://upgrade.example.com/notice" (so [url.Host] is
    "upgrade.example.com"), a CONNECT to "upgrade.example.com:80" -- the
    rewrite destination's own host -- is not caught by the loop check,
    since [req.Host] carries the port: [matchVersion] selects it and the
    tunnel is hijacked and redirected to the rewrite URL again. *)
Theorem matchVersion_connect_to_rewrite_host :
  New (Some below3) (example_url_string "http") (Some (example_url "http")) []
      pct_one = Some (example_checker "http" pct_one) /\
  split_host_port "upgrade.example.com:80" =
    inr ("upgrade.example.com"%string, "80"%string) /\
  matchVersion (example_checker "http" pct_one)
    (connect_req "upgrade.example.com:80" None) 0 = true /\
  shouldRedirectOnConnect (example_checker "http" pct_one)
    (connect_req "upgrade.example.com:80" None) 0 = true /\
  fst (fst (Apply (example_checker "http" pct_one)
                  (mkEnv true (inr (mkRequest MethodGet "upgrade.example.com" ∅))
                         (fun _ => (None, None)))
                  (connect_req "upgrade.example.com:80" None) 0))
    = Returned (Some (redirect_response (example_checker "http" pct_one))) None.
Proof. repeat split; reflexivity. Qed.

(** C8 (amended). With sampling rate 0.0 [matchVersion] is false for
    every request and every draw in [0, 1000000).  With sampling rate 1.0
    the sampling step rejects no draw: every request whose target host is
    not the rewrite host and whose version is missing, unparseable or
    inside the configured range is selected, a GET with the browser
    heuristics is redirected, and a CONNECT to a port to check is
    hijacked. *)
Theorem sampling_rate_zero_and_one (pr : option Range) (us : string)
    (pu : option URL) (ports : list string) :
  (forall c req draw, New pr us pu ports pct_zero = Some c -> 0 <= draw ->
     matchVersion c req draw = false) /\
  (forall c req draw, New pr us pu ports pct_one = Some c ->
     0 <= draw < oneMillion ->
     req_host req <> url_host (rewriteURL c) ->
     (forall v, semver_make (header_get (req_header req) VersionHeader) = Some v ->
                versionRange c v = true) ->
     matchVersion c req draw = true /\
     (has_prefix (header_get (req_header req) "Accept") "text/html" = true ->
      has_prefix (header_get (req_header req) "User-Agent") "Mozilla/" = true ->
      shouldRedirect c req draw = true) /\
     (forall h p, split_host_port (req_host req) = inr (h, p) ->
      In p (tunnelPorts c) -> shouldRedirectOnConnect c req draw = true)).
Proof.
  split.
  - intros c req draw Hnew Hd. unfold matchVersion.
    rewrite (New_ppm _ _ _ _ _ _ Hnew).
    assert (Hz : go_int_of_float64 (f64_mul_oneMillion pct_zero) = 0) by reflexivity.
    rewrite Hz. destruct (String.eqb _ _); [reflexivity|].
    destruct (match semver_make _ with Some v => _ | None => _ end); [reflexivity|].
    replace (draw >=? 0) with true by (symmetry; apply Z.geb_le; lia). reflexivity.
  - intros c req draw Hnew Hd Hne Hin.
    assert (Hm : matchVersion c req draw = true).
    { rewrite (proj2 (matchVersion_version_gate c req draw) Hne Hin).
      rewrite (New_ppm _ _ _ _ _ _ Hnew).
      assert (Ho : go_int_of_float64 (f64_mul_oneMillion pct_one) = oneMillion)
        by reflexivity.
      rewrite Ho. unfold oneMillion in *.
      replace (draw >=? 100 * 100 * 100) with false
        by (rewrite Z.geb_leb; symmetry; apply Z.leb_gt; lia).
      reflexivity. }
    split; [exact Hm|]. split.
    + intros Ha Hu. unfold shouldRedirect. rewrite Ha, Hu. exact Hm.
    + intros h p Hs Hp. unfold shouldRedirectOnConnect. rewrite Hm, Hs. simpl.
      apply existsb_exists. exists p. split; [exact Hp|]. apply String.eqb_refl.
Qed.

Lemma sampling_rate_zero_and_one_witness :
  matchVersion (example_checker "https" pct_zero)
    (browser_get "www.example.com" None) 5 = false /\
  shouldRedirect (example_checker "https" pct_one)
    (browser_get "www.example.com" None) 999999 = true.
Proof.
  split.
  - apply (proj1 (sampling_rate_zero_and_one (Some below3) (example_url_string "https")
                    (Some (example_url "https")) [])); [reflexivity | lia].
  - apply (proj2 (sampling_rate_zero_and_one (Some below3) (example_url_string "https")
             (Some (example_url "https")) [])
             (example_checker "https" pct_one) (browser_get "www.example.com" None) 999999).
    + reflexivity.
    + unfold oneMillion; lia.
    + discriminate.
    + intros v Hv. discriminate Hv.
    + reflexivity.
    + reflexivity.
Defined.

(** C8 (counterexample). With sampling rate 1.0, a browser GET whose
    version "4.0.0" parses and lies outside the range "<3.0.0" is not
    redirected. *)
Lemma sampling_rate_one_outside_range_kept :
  ppm (example_checker "https" pct_one) = oneMillion /\
  semver_make "4.0.0" = Some (mkVersion 4 0 0 [] []) /\
  below3 (mkVersion 4 0 0 [] []) = false /\
  shouldRedirect (example_checker "https" pct_one)
    (browser_get "www.example.com" (Some "4.0.0")) 0 = false.
Proof. repeat split; reflexivity. Qed.

(* ------------------------------------------------------------------ *)
(** ** The sampling threshold [int(percentage * oneMillion)] *)

Lemma round53_pos_bounds (M : Z) :
  0 < M ->
  let '(q, k) := round53_pos M in
  0 <= k /\ M / 2 ^ k <= q /\ (0 < k -> 2 ^ 52 <= q).
Proof.
  intros HM. unfold round53_pos.
  destruct (Z.ltb_spec M (2 ^ 53)) as [Hs|Hs].
  - rewrite Z.pow_0_r, Z.div_1_r. lia.
  - assert (Hl : 53 <= Z.log2 M).
    { rewrite <- (Z.log2_pow2 53) by lia. apply Z.log2_le_mono. exact Hs. }
    assert (Hq : 2 ^ 52 <= M / 2 ^ (Z.log2 M - 52)).
    { apply Z.div_le_lower_bound; [apply Z.pow_pos_nonneg; lia|].
      rewrite <- Z.pow_add_r by lia.
      replace (Z.log2 M - 52 + 52) with (Z.log2 M) by lia.
      apply Z.log2_spec. exact HM. }
    destruct (_ || _); lia.
Qed.

(** Rounding to 53 bits keeps the truncated value above the exact floor,
    or above [2 ^ 52]. *)
Lemma f64_round_trunc_lb (M E : Z) :
  0 < M -> Z.min (2 ^ 52) (floor_scaled M E) <= f64_trunc (f64_round M E).
Proof.
  intros HM. unfold f64_round. rewrite Z.abs_eq by lia.
  pose proof (round53_pos_bounds M HM) as Hb.
  destruct (round53_pos M) as [q k]. destruct Hb as (Hk & Hq & Hbig).
  rewrite Z.sgn_pos by lia. rewrite Z.mul_1_l.
  unfold f64_trunc, floor_scaled; simpl f_mant; simpl f_exp.
  assert (Hq0 : 0 <= q).
  { eapply Z.le_trans; [|exact Hq]. apply Z.div_pos; [lia|]. apply Z.pow_pos_nonneg; lia. }
  destruct (Z.eq_dec k 0) as [->|Hk0].
  - rewrite Z.pow_0_r, Z.div_1_r in Hq. rewrite Z.add_0_r.
    destruct (Z.leb_spec 0 E).
    + assert (0 < 2 ^ E) by (apply Z.pow_pos_nonneg; lia). nia.
    + rewrite Z.quot_div_nonneg by (try apply Z.pow_pos_nonneg; lia).
      assert (M / 2 ^ (- E) <= q / 2 ^ (- E)).
      { apply Z.div_le_mono; [apply Z.pow_pos_nonneg; lia | lia]. }
      lia.
  - specialize (Hbig ltac:(lia)).
    destruct (Z.leb_spec 0 (E + k)).
    + assert (1 <= 2 ^ (E + k)).
      { change 1 with (2 ^ 0). apply Z.pow_le_mono_r; lia. }
      nia.
    + rewrite Z.quot_div_nonneg by (try apply Z.pow_pos_nonneg; lia).
      destruct (Z.leb_spec 0 E); [lia|].
      assert (Hd : M / 2 ^ k / 2 ^ (- (E + k)) <= q / 2 ^ (- (E + k))).
      { apply Z.div_le_mono; [apply Z.pow_pos_nonneg; lia | exact Hq]. }
      assert (0 < 2 ^ k) by (apply Z.pow_pos_nonneg; lia).
      assert (0 < 2 ^ (- (E + k))) by (apply Z.pow_pos_nonneg; lia).
      rewrite Z.div_div in Hd by lia.
      rewrite <- Z.pow_add_r in Hd by lia.
      replace (k + - (E + k)) with (- E) in Hd by lia. lia.
Qed.

(** A float64 at least 1, times [oneMillion], is at least one million
    before rounding. *)
Lemma f64_ge_one_scaled (p : F64) :
  f64_ge_one p = true ->
  0 < f_mant p * 15625 /\ oneMillion <= floor_scaled (f_mant p * 15625) (f_exp p + 6).
Proof.
  unfold f64_ge_one, floor_scaled, oneMillion.
  destruct p as [m e]; simpl.
  destruct (Z.leb_spec 0 e) as [He|He]; intros H.
  - apply Z.leb_le in H.
    assert (0 < 2 ^ e) by (apply Z.pow_pos_nonneg; lia).
    replace (0 <=? e + 6) with true by (symmetry; apply Z.leb_le; lia).
    rewrite Z.pow_add_r by lia. split; nia.
  - apply Z.leb_le in H.
    assert (0 < 2 ^ (- e)) by (apply Z.pow_pos_nonneg; lia).
    destruct (Z.leb_spec 0 (e + 6)).
    + assert (Hs : 2 ^ (- e) * 2 ^ (e + 6) = 2 ^ 6)
        by (rewrite <- Z.pow_add_r by lia; f_equal; lia).
      assert (0 < 2 ^ (e + 6)) by (apply Z.pow_pos_nonneg; lia).
      split; nia.
    + assert (Hs : 2 ^ (- e) = 2 ^ (- (e + 6)) * 2 ^ 6)
        by (rewrite <- Z.pow_add_r by lia; f_equal; lia).
      assert (0 < 2 ^ (- (e + 6))) by (apply Z.pow_pos_nonneg; lia).
      split; [nia|].
      apply Z.div_le_lower_bound; [lia|]. nia.
Qed.

(** C9 (amended).  For a float64 percentage of at least 1.0 the threshold
    is [int(percentage * 1000000)]: when that product is below [2^63] the
    threshold is at least 1000000 and every draw of [rand.Intn(1000000)]
    passes the sampling step; when it is [2^63] or more, the amd64
    conversion gives the minimum [int] and [matchVersion] rejects every
    draw of [rand.Intn] (a draw is never negative). *)
Theorem New_ppm_fraction_of_one (pr : option Range) (us : string)
    (pu : option URL) (ports : list string) (p : F64) (c : VersionChecker) :
  New pr us pu ports p = Some c ->
  f64_ge_one p = true ->
  (f64_trunc (f64_mul_oneMillion p) < 2 ^ 63 ->
   oneMillion <= ppm c /\ (forall draw, draw < oneMillion -> (draw >=? ppm c) = false)) /\
  (2 ^ 63 <= f64_trunc (f64_mul_oneMillion p) ->
   ppm c = - 2 ^ 63 /\ (forall req draw, 0 <= draw -> matchVersion c req draw = false)).
Proof.
  intros Hnew Hge. rewrite (New_ppm _ _ _ _ _ _ Hnew). split.
  - intros Hlt.
    destruct (f64_ge_one_scaled p Hge) as [HM Hfl].
    pose proof (f64_round_trunc_lb _ (f_exp p + 6) HM) as Hr.
    unfold f64_mul_oneMillion in *. unfold go_int_of_float64.
    set (t := f64_trunc (f64_round (f_mant p * 15625) (f_exp p + 6))) in *.
    assert (Ht : oneMillion <= t).
    { unfold oneMillion in *. lia. }
    replace ((- 2 ^ 63 <=? t) && (t <? 2 ^ 63)) with true
      by (symmetry; apply andb_true_intro; split; [apply Z.leb_le | apply Z.ltb_lt];
          unfold oneMillion in *; lia).
    split; [exact Ht|].
    intros draw Hd. rewrite Z.geb_leb. apply Z.leb_gt. lia.
  - intros Hge63.
    assert (Hp : go_int_of_float64 (f64_mul_oneMillion p) = - 2 ^ 63).
    { unfold go_int_of_float64.
      replace ((- 2 ^ 63 <=? f64_trunc (f64_mul_oneMillion p))
               && (f64_trunc (f64_mul_oneMillion p) <? 2 ^ 63)) with false
        by (symmetry; apply andb_false_intro2; apply Z.ltb_ge; lia).
      reflexivity. }
    split; [exact Hp|].
    intros req draw Hd. rewrite <- (New_ppm _ _ _ _ _ _ Hnew) in Hp.
    unfold matchVersion.
    destruct (String.eqb (req_host req) (url_host (rewriteURL c))); [reflexivity|].
    destruct (match semver_make (header_get (req_header req) VersionHeader) with
              | Some v => negb (versionRange c v)
              | None => false
              end); [reflexivity|].
    rewrite Hp. replace (draw >=? - 2 ^ 63) with true
      by (symmetry; rewrite Z.geb_leb; apply Z.leb_le; lia).
    reflexivity.
Qed.

(** A rate written as the whole-number percent 5 behaves as 1.0; the rate
    1e13 is past the [int] range and rejects the draw 0. *)
Lemma New_ppm_fraction_of_one_witness :
  ppm (example_checker "https" (mkF64 5 0)) = 5000000 /\
  (999999 >=? ppm (example_checker "https" (mkF64 5 0))) = false /\
  ppm (example_checker "https" (mkF64 (10 ^ 13) 0)) = - 2 ^ 63 /\
  matchVersion (example_checker "https" (mkF64 (10 ^ 13) 0))
    (browser_get "www.example.com" None) 0 = false.
Proof.
  split; [reflexivity|]. split.
  - apply (proj2 (proj1 (New_ppm_fraction_of_one (Some below3) (example_url_string "https")
                    (Some (example_url "https")) [] (mkF64 5 0)
                    (example_checker "https" (mkF64 5 0)) eq_refl eq_refl)
                    ltac:(vm_compute; reflexivity))).
    unfold oneMillion; lia.
  - destruct (proj2 (New_ppm_fraction_of_one (Some below3) (example_url_string "https")
                       (Some (example_url "https")) [] (mkF64 (10 ^ 13) 0)
                       (example_checker "https" (mkF64 (10 ^ 13) 0)) eq_refl
                       ltac:(vm_compute; reflexivity))
                       ltac:(apply Z.leb_le; vm_compute; reflexivity)) as [Hp Hm].
    split; [exact Hp|]. apply Hm. lia.
Defined.

(** C9 (counterexample). The float64 percentage 1e13 is at least 1.0,
    but 1e13 * 1e6 = 1e19 does not fit in Go's [int]: on amd64 the
    threshold becomes the minimum int64, so the sampling step rejects
    every draw and an eligible browser request is not redirected. *)
Lemma New_ppm_overflow :
  f64_ge_one (mkF64 (10 ^ 13) 0) = true /\
  ppm (example_checker "https" (mkF64 (10 ^ 13) 0)) = - 2 ^ 63 /\
  shouldRedirect (example_checker "https" (mkF64 (10 ^ 13) 0))
    (browser_get "www.example.com" None) 0 = false.
Proof. repeat split; vm_compute; reflexivity. Qed.

(* ------------------------------------------------------------------ *)
(** ** [redirectOnConnect] and [Apply] *)

(** C1 (code bug). When the 200 acknowledgement is written but reading
    the tunnelled request fails, [http.ReadRequest] returns a nil request:
    the error is logged, then [req.Body] dereferences the nil pointer and
    the filter panics; no 302 is returned.  Through [Apply], every CONNECT
    that is selected for the redirect ends this way. *)
Theorem redirectOnConnect_read_failure_panics (c : VersionChecker) (e : Env)
    (err : string) :
  conn_write_ok e = true -> conn_read e = inl err ->
  redirectOnConnect c e = (Panicked, [EvConnWrite connect_ok_response; EvLogError err]) /\
  (forall req draw, req_method req = MethodConnect ->
     shouldRedirectOnConnect c req draw = true ->
     fst (fst (Apply c e req draw)) = Panicked).
Proof.
  intros Hw Hr.
  assert (H : redirectOnConnect c e =
              (Panicked, [EvConnWrite connect_ok_response; EvLogError err])).
  { unfold redirectOnConnect, read_request. rewrite Hw, Hr. reflexivity. }
  split; [exact H|].
  intros req draw Hm Hs. unfold Apply. rewrite Hm, Hs. simpl. rewrite H. reflexivity.
Qed.

Lemma redirectOnConnect_read_failure_panics_witness :
  shouldRedirectOnConnect (example_checker "http" pct_one)
    (connect_req "www.example.com:80" None) 0 = true /\
  fst (fst (Apply (example_checker "http" pct_one)
                  (mkEnv true (inl "EOF"%string) (fun _ => (None, None)))
                  (connect_req "www.example.com:80" None) 0)) = Panicked.
Proof.
  split; [reflexivity|].
  apply (proj2 (redirectOnConnect_read_failure_panics (example_checker "http" pct_one)
                  (mkEnv true (inl "EOF"%string) (fun _ => (None, None))) "EOF"
                  eq_refl eq_refl)); reflexivity.
Defined.

(** C5 (code bug). [Apply] removes the version header only in its
    deferred call: whenever [next] is called, it is called with the
    request as it came in, version header included; the header is gone
    only from the request the caller sees once [Apply] has returned. *)
Theorem Apply_next_sees_version_header (c : VersionChecker) (e : Env)
    (req : Request) (draw : Z) :
  let '(_, evs, req') := Apply c e req draw in
  (forall r, In (EvNext r) evs -> r = req) /\
  req_header req' !! VersionHeader = None.
Proof.
  unfold Apply.
  destruct (env_next e req) as [resp err] eqn:Hn.
  assert (Hdel : req_header (with_header req (header_del (req_header req) VersionHeader))
                 !! VersionHeader = None).
  { simpl. unfold header_del. apply lookup_delete_eq. }
  assert (Hrc : forall r, In (EvNext r) (snd (redirectOnConnect c e)) -> r = req).
  { intros r. unfold redirectOnConnect, read_request.
    destruct (conn_write_ok e); [|simpl; tauto].
    destruct (conn_read e); simpl; intros H; intuition discriminate. }
  destruct (String.eqb (req_method req) MethodConnect).
  - destruct (shouldRedirectOnConnect c req draw).
    + revert Hrc. generalize (redirectOnConnect c e). intros [o evs] Hrc.
      split; [exact Hrc | exact Hdel].
    + split; [|exact Hdel]. intros r [H|H]; [congruence|contradiction].
  - destruct (String.eqb (req_method req) MethodGet).
    + destruct (shouldRedirect c req draw).
      * split; [|exact Hdel]. intros r [].
      * split; [|exact Hdel]. intros r [H|H]; [congruence|contradiction].
    + split; [|exact Hdel]. intros r [H|H]; [congruence|contradiction].
Qed.

(** The failing input: a POST carrying "X-Lantern-Version: 1.0.0" is
    passed on to [next] with the header still present. *)
Lemma Apply_next_sees_version_header_witness :
  let req := mkRequest "POST" "www.example.com" {[ VersionHeader := ["1.0.0"%string] ]} in
  snd (fst (Apply (example_checker "https" pct_one)
                  (mkEnv true (inl "EOF"%string) (fun _ => (None, None))) req 0))
    = [EvNext req] /\
  req_header req !! VersionHeader = Some ["1.0.0"%string] /\
  (forall r, In (EvNext r) [EvNext req] -> r = req).
Proof.
  intros req. split; [reflexivity|]. split; [reflexivity|].
  pose proof (Apply_next_sees_version_header (example_checker "https" pct_one)
                (mkEnv true (inl "EOF"%string) (fun _ => (None, None))) req 0) as H.
  exact (proj1 H).
Defined.

(* ------------------------------------------------------------------ *)
(** ** Token filter *)

(** C4 (amended). With a non-empty secret and a token header present: a
    request whose token header has a non-empty first value and at least
    one value equal to the secret reaches [next] with the token header
    removed; a request whose token header has an empty first value gets
    the decoy response and never reaches [next], whatever its later
    values are. *)
Theorem token_apply_match_continues (token : string)
    (next : Request -> option Response * option string) (req : Request)
    (toks : list string) :
  token <> EmptyString ->
  req_header req !! TokenHeader = Some toks ->
  (head toks <> Some EmptyString ->
   In token toks ->
   let req' := with_header req (delete TokenHeader (req_header req)) in
   token_apply token next req =
     (Returned (fst (next req')) (snd (next req')),
      [TEvInstrumentMimic false; TEvNext req']) /\
   req_header req' !! TokenHeader = None) /\
  (head toks = Some EmptyString ->
   token_apply token next req =
     (Returned None None, [TEvInstrumentMimic true; TEvMimicApache; TEvConnClose])).
Proof.
  intros Hne Hh. split.
  - intros Hhd Hin req'. split.
    + unfold token_apply. rewrite Hh.
      destruct (String.eqb_spec token EmptyString) as [E|_]; [contradiction|].
      assert (Hnt : match toks with
                    | [] => true
                    | t0 :: _ => String.eqb t0 EmptyString
                    end = false).
      { destruct toks as [|t0 ts]; [contradiction|].
        apply String.eqb_neq. intros E. apply Hhd. simpl. congruence. }
      rewrite Hnt. simpl.
      assert (Hm : existsb (String.eqb token) toks = true).
      { apply existsb_exists. exists token. split; [exact Hin | apply String.eqb_refl]. }
      rewrite Hm. unfold header_del. fold req'.
      destruct (next req'); reflexivity.
    + simpl. apply lookup_delete_eq.
  - intros Hhd. unfold token_apply. rewrite Hh.
    destruct (String.eqb_spec token EmptyString) as [E|_]; [contradiction|].
    destruct toks as [|t0 ts]; [discriminate|].
    simpl in Hhd. injection Hhd as ->. reflexivity.
Qed.

(** The secret "secret": a header "other", "secret" reaches [next] with
    the header removed; a header "", "secret" gets the decoy response. *)
Lemma token_apply_match_continues_witness :
  let req := mkRequest "GET" "www.example.com"
               {[ TokenHeader := ["other"%string; "secret"%string] ]} in
  let req2 := mkRequest "GET" "www.example.com"
               {[ TokenHeader := [EmptyString; "secret"%string] ]} in
  token_apply "secret" (fun _ => (None, None)) req =
    (Returned None None,
     [TEvInstrumentMimic false; TEvNext (with_header req ∅)]) /\
  token_apply "secret" (fun _ => (None, None)) req2 =
    (Returned None None, [TEvInstrumentMimic true; TEvMimicApache; TEvConnClose]).
Proof.
  intros req req2. split.
  - assert (Hd : delete TokenHeader (req_header req) = ∅)
      by (simpl; apply delete_singleton_eq).
    pose proof (proj1 (proj1 (token_apply_match_continues "secret" (fun _ => (None, None)) req
                         ["other"%string; "secret"%string]
                         ltac:(discriminate) eq_refl) ltac:(discriminate)
                         ltac:(simpl; tauto))) as H.
    cbv zeta in H. rewrite Hd in H. exact H.
  - apply (proj2 (token_apply_match_continues "secret" (fun _ => (None, None)) req2
                    [EmptyString; "secret"%string] ltac:(discriminate) eq_refl)).
    reflexivity.
Defined.

(** C4 (counterexample). With the secret "secret", a token header whose
    values are "" then "secret" contains the secret, but the empty first
    value sends the request to the decoy response: it never reaches
    [next]. *)
Lemma token_apply_empty_first_value_mimics :
  token_apply "secret" (fun _ => (None, None))
    (mkRequest "GET" "www.example.com"
       {[ TokenHeader := [EmptyString; "secret"%string] ]}) =
    (Returned None None, [TEvInstrumentMimic true; TEvMimicApache; TEvConnClose]).
Proof. reflexivity. Qed.

(* ------------------------------------------------------------------ *)
(** ** Port admission filter *)

(** C7. For every CONNECT request the filter gives exactly one of:
    Reply 400 when the target does not split as host:port or the port is
    empty or not an integer; Reply 403 when the port is an integer outside
    the allowed set; Continue with the request unchanged when it is
    inside. *)
Theorem port_filter_connect_cases (allowed : list Z) (req : Request) :
  req_method req = MethodConnect ->
  ((match split_host_port (req_host req) with
    | inl _ => True
    | inr (_, port) => port = EmptyString \/ parse_int port = None
    end) /\ port_filter allowed req = Reply StatusBadRequest true)
  \/ (exists h port n, split_host_port (req_host req) = inr (h, port) /\
        port <> EmptyString /\ parse_int port = Some n /\ ~ In n allowed /\
        port_filter allowed req = Reply StatusForbidden true)
  \/ (exists h port n, split_host_port (req_host req) = inr (h, port) /\
        port <> EmptyString /\ parse_int port = Some n /\ In n allowed /\
        port_filter allowed req = Continue req).
Proof.
  intros Hm. unfold port_filter, connect_port. rewrite Hm. simpl.
  destruct (split_host_port (req_host req)) as [err|[h port]] eqn:Hs.
  - left. split; [exact I | reflexivity].
  - destruct (String.eqb_spec port EmptyString) as [Ep|Np].
    + left. split; [left; exact Ep | reflexivity].
    + destruct (parse_int port) as [n|] eqn:Hp.
      * destruct (existsb (Z.eqb n) allowed) eqn:Ha.
        -- right; right. exists h, port, n. repeat split; try assumption.
           apply existsb_exists in Ha as [x [Hx Ex]]. apply Z.eqb_eq in Ex. subst; exact Hx.
        -- right; left. exists h, port, n. repeat split; try assumption.
           intros Hin. assert (existsb (Z.eqb n) allowed = true)
             by (apply existsb_exists; exists n; split; [exact Hin | apply Z.eqb_refl]).
           congruence.
      * left. split; [right; reflexivity | reflexivity].
Qed.

(** The cases of [TestFilterTunnelPorts], allowed ports {443, 8080}. *)
Lemma port_filter_connect_cases_witness :
  port_filter [443; 8080] (mkRequest MethodConnect "site.com" ∅) = Reply 400 true /\
  port_filter [443; 8080] (mkRequest MethodConnect "site.com:" ∅) = Reply 400 true /\
  port_filter [443; 8080] (mkRequest MethodConnect "site.com:abc" ∅) = Reply 400 true /\
  port_filter [443; 8080] (mkRequest MethodConnect "site.com:443" ∅)
    = Continue (mkRequest MethodConnect "site.com:443" ∅) /\
  port_filter [443; 8080] (mkRequest MethodConnect "site.com:8080" ∅)
    = Continue (mkRequest MethodConnect "site.com:8080" ∅) /\
  port_filter [443; 8080] (mkRequest MethodConnect "site.com:8081" ∅) = Reply 403 true /\
  (exists h port n,
     split_host_port "site.com:8081" = inr (h, port) /\ port <> EmptyString /\
     parse_int port = Some n /\ ~ In n [443; 8080] /\
     port_filter [443; 8080] (mkRequest MethodConnect "site.com:8081" ∅)
       = Reply StatusForbidden true).
Proof.
  do 6 (split; [reflexivity|]).
  destruct (port_filter_connect_cases [443; 8080]
              (mkRequest MethodConnect "site.com:8081" ∅) eq_refl)
    as [[_ H]|[H|(h & port & n & _ & _ & _ & _ & H)]].
  - discriminate H.
  - exact H.
  - discriminate H.
Defined.

(* ------------------------------------------------------------------ *)
(** ** Usage reporter: the flush pass *)

Lemma clientKey_inj (a b : string) : clientKey a = clientKey b -> a = b.
Proof.
  unfold clientKey. intros H. cbv [String.append] in H.
  repeat match goal with
         | H : String _ _ = String _ _ |- _ => injection H as H
         end.
  exact H.
Qed.

(** When a device's EXEC fails, the pass stops there: every event names a
    device up to the failing one, and the store changed only at the keys
    of the devices up to it. *)
Lemma submit_loop_failure_prefix (fail : Store -> string -> bool) (now x : Z)
    (entries : list (string * Stats)) :
  forall st st' evs err d y,
  submit_loop fail now x st entries = (st', evs, err) ->
  In (REvExec d y false) evs ->
  err = true /\
  exists pre s post,
    entries = pre ++ (d, s) :: post /\
    (forall ev, In ev evs ->
       exists d0, event_device ev = Some d0 /\ In d0 ((pre ++ [(d, s)]).*1)) /\
    (forall k, (forall d0, In d0 ((pre ++ [(d, s)]).*1) -> k <> clientKey d0) ->
       st' !! k = st !! k).
Proof.
  induction entries as [|[d0 s0] rest IH]; intros st st' evs err d y Hs Hin.
  - simpl in Hs. injection Hs as <- <- <-. contradiction.
  - cbn [submit_loop] in Hs. destruct (fail st d0) eqn:Hf.
    + injection Hs as <- <- <-. destruct Hin as [Hin|[]].
      injection Hin as -> _. split; [reflexivity|].
      exists [], s0, rest. split; [reflexivity|]. split.
      * intros ev [<-|[]]. exists d. simpl. tauto.
      * intros k _. reflexivity.
    + destruct (exec_tx st d0 s0 x) as [st1 ok] eqn:Hx.
      assert (Hst1 : forall k, k <> clientKey d0 -> st1 !! k = st !! k).
      { intros k Hk. unfold exec_tx in Hx. injection Hx as <- _.
        apply lookup_insert_ne. congruence. }
      destruct ok; cbn [negb] in Hs.
      * destruct (submit_loop fail now x st1 rest) as [[st2 evs2] err2] eqn:Hr. cbv beta iota in Hs.
        injection Hs as <- <- <-.
        destruct Hin as [Hin|[Hin|Hin]]; try discriminate.
        destruct (IH _ _ _ _ _ _ Hr Hin) as (Herr & pre & s & post & He & Hev & Hst).
        split; [exact Herr|].
        exists ((d0, s0) :: pre), s, post. split; [rewrite He; reflexivity|]. split.
        -- intros ev [<-|[<-|Hev']].
           ++ exists d0. simpl. tauto.
           ++ exists d0. simpl. tauto.
           ++ destruct (Hev ev Hev') as (d1 & Hd1 & Hin1). exists d1.
              split; [exact Hd1|]. simpl. tauto.
        -- intros k Hk. rewrite Hst.
           ++ apply Hst1. apply (Hk d0). simpl. tauto.
           ++ intros d1 Hd1. apply Hk. simpl. tauto.
      * injection Hs as <- <- <-. destruct Hin as [Hin|[]].
        injection Hin as -> _. split; [reflexivity|].
        exists [], s0, rest. split; [reflexivity|]. split.
        -- intros ev [<-|[]]. exists d. simpl. tauto.
        -- intros k Hk. apply Hst1. apply Hk. simpl. tauto.
Qed.

(** C3. A flush pass that hits a failing EXEC attempts no later device:
    the error is logged, no event of the pass names any device after the
    failing one, and the store keeps their old counters; whatever
    happens, the in-memory map is empty after the tick, so their deltas
    are gone. *)
Theorem tick_aborts_and_resets (fail : Store -> string -> bool) (l : Location) (now : Z)
    (order : list (string * Stats)) (rs : RState) :
  order ≡ₚ map_to_list (statsByDeviceID rs) ->
  let '(rs', evs) := tick_step fail l now order rs in
  statsByDeviceID rs' = ∅ /\
  (forall d y, In (REvExec d y false) evs ->
     In REvLogError evs /\
     exists pre s post, order = pre ++ (d, s) :: post /\
       forall d' s', In (d', s') post ->
         (forall ev, In ev evs -> event_device ev <> Some d') /\
         store rs' !! clientKey d' = store rs !! clientKey d').
Proof.
  intros Hp.
  assert (Hnd : NoDup (order.*1)).
  { rewrite Hp. apply NoDup_fst_map_to_list. }
  unfold tick_step, submit.
  destruct (submit_loop fail now (time_unix (endOfThisMonth l now)) (store rs) order)
    as [[st' evs] err] eqn:Hs.
  simpl. split; [reflexivity|].
  intros d y Hin.
  assert (Hin0 : In (REvExec d y false) evs).
  { destruct err; [|exact Hin]. apply in_app_or in Hin as [H|[H|[]]]; [exact H|discriminate]. }
  destruct (submit_loop_failure_prefix _ _ _ _ _ _ _ _ _ _ Hs Hin0)
    as (-> & pre & s & post & He & Hev & Hst).
  split; [apply in_or_app; right; left; reflexivity|].
  exists pre, s, post. split; [exact He|].
  intros d' s' Hpost.
  rewrite He, fmap_app, fmap_cons in Hnd.
  apply NoDup_app in Hnd as (_ & Hdisj & Hnd2).
  apply NoDup_cons in Hnd2 as [Hnotd _].
  assert (Hd' : d' ∈ post.*1).
  { apply list_elem_of_fmap. exists (d', s'). split; [reflexivity|].
    apply list_elem_of_In. exact Hpost. }
  assert (Hfresh : forall d0, In d0 ((pre ++ [(d, s)]).*1) -> d0 <> d').
  { intros d0 Hd0 E. subst d'. rewrite fmap_app in Hd0. apply in_app_or in Hd0 as [H|[H|[]]].
    - apply (Hdisj d0); [apply list_elem_of_In; exact H|].
      apply elem_of_cons. right. exact Hd'.
    - simpl in H. subst. apply Hnotd. exact Hd'. }
  split.
  - intros ev Hev'. apply in_app_or in Hev' as [Hev'|[<-|[]]].
    + destruct (Hev ev Hev') as (d0 & Hd0 & Hin0'). rewrite Hd0. intros E.
      injection E as E. apply (Hfresh d0 Hin0' E).
    + discriminate.
  - apply Hst. intros d0 Hd0 E. apply clientKey_inj in E.
    exact (Hfresh d0 Hd0 (eq_sym E)).
Qed.

(** The map holds devices "a", "b", "c", which the range visits in the
    order "c", "a", "b"; EXEC fails for "a".  "c" is flushed, then the
    pass stops at "a": the error is logged, no event names "b", the store
    keeps no counter for "b", and the map is emptied. *)
Lemma tick_aborts_and_resets_witness :
  let rs := mkRState ∅ (<["a"%string := mkStats 1 2]>
                         (<["b"%string := mkStats 3 4]> {[ "c"%string := mkStats 5 6 ]})) in
  let fail := fun (_ : Store) (d : string) => String.eqb d "a" in
  let '(rs', evs) := tick_step fail utc_loc 0 (map_to_list (statsByDeviceID rs)) rs in
  statsByDeviceID rs' = ∅ /\ In REvLogError evs
  /\ (forall ev, In ev evs -> event_device ev <> Some "b"%string)
  /\ store rs' !! clientKey "b" = None.
Proof.
  intros rs fail.
  assert (Horder : map_to_list (statsByDeviceID rs)
                   = [("c"%string, mkStats 5 6); ("a"%string, mkStats 1 2);
                      ("b"%string, mkStats 3 4)]) by reflexivity.
  assert (Hevs : In (REvExec "a" (time_unix (endOfThisMonth utc_loc 0)) false)
                    (snd (tick_step fail utc_loc 0 (map_to_list (statsByDeviceID rs)) rs)))
    by (vm_compute; right; right; left; reflexivity).
  pose proof (tick_aborts_and_resets fail utc_loc 0 (map_to_list (statsByDeviceID rs)) rs
                ltac:(reflexivity)) as H.
  revert Hevs H.
  destruct (tick_step fail utc_loc 0 (map_to_list (statsByDeviceID rs)) rs) as [rs' evs].
  cbv beta iota. intros Hevs H. cbv beta iota in H. cbn [snd] in Hevs.
  destruct H as [H0 H1].
  destruct (H1 _ _ Hevs) as (Hlog & pre & s & post & Ho & Hpost).
  rewrite Horder in Ho.
  destruct pre as [|p1 [|p2 pre]]; simpl in Ho.
  - discriminate Ho.
  - inversion Ho; subst.
    destruct (Hpost "b"%string (mkStats 3 4) ltac:(left; reflexivity)) as [Hn Hb].
    split; [exact H0|]. split; [exact Hlog|]. split; [exact Hn|].
    rewrite Hb. reflexivity.
  - apply (f_equal (@tl _)) in Ho. apply (f_equal (@tl _)) in Ho. simpl in Ho.
    destruct pre as [|p3 [|p4 pre]]; simpl in Ho; discriminate Ho.
Defined.

(* ------------------------------------------------------------------ *)
(** ** Calendar lemmas *)

Lemma days_before_year_step (y : Z) :
  days_before_year (y + 1) = days_before_year y + year_length (is_leap y).
Proof.
  unfold days_before_year, year_length, is_leap.
  destruct (Z.eqb_spec (y mod 4) 0), (Z.eqb_spec (y mod 100) 0),
    (Z.eqb_spec (y mod 400) 0); simpl; Z.div_mod_to_equations; lia.
Qed.

Lemma days_before_year_mono (y1 y2 : Z) :
  y1 <= y2 -> days_before_year y1 <= days_before_year y2.
Proof. unfold days_before_year. intros. Z.div_mod_to_equations; lia. Qed.

Lemma year_length_pos (b : bool) : 365 <= year_length b <= 366.
Proof. destruct b; simpl; lia. Qed.

Lemma year_of_days_spec (D : Z) :
  days_before_year (year_of_days D) <= D < days_before_year (year_of_days D + 1).
Proof.
  assert (Hlo : days_before_year (D * 400 / 146097 - 1) <= D).
  { unfold days_before_year. Z.div_mod_to_equations; lia. }
  assert (Hhi : D < days_before_year (D * 400 / 146097 + 2)).
  { unfold days_before_year. Z.div_mod_to_equations; lia. }
  unfold year_of_days. set (y0 := D * 400 / 146097) in *.
  destruct (Z.leb_spec (days_before_year (y0 + 1)) D).
  - split; [lia|]. replace (y0 + 1 + 1) with (y0 + 2) by lia. lia.
  - destruct (Z.ltb_spec D (days_before_year y0)).
    + split; [lia|]. replace (y0 - 1 + 1) with y0 by lia. lia.
    + lia.
Qed.

Lemma year_of_days_unique (D y : Z) :
  days_before_year y <= D < days_before_year (y + 1) -> year_of_days D = y.
Proof.
  intros H. pose proof (year_of_days_spec D) as Hs.
  destruct (Z.lt_total (year_of_days D) y) as [Hlt | [Heq | Hgt]]; [|exact Heq|].
  - pose proof (days_before_year_mono (year_of_days D + 1) y ltac:(lia)). lia.
  - pose proof (days_before_year_mono (y + 1) (year_of_days D) ltac:(lia)). lia.
Qed.

Lemma month_table_true : month_table_ok true = true.
Proof. vm_compute. reflexivity. Qed.

Lemma month_table_false : month_table_ok false = true.
Proof. vm_compute. reflexivity. Qed.

Lemma month_table (b : bool) : month_table_ok b = true.
Proof. destruct b; [exact month_table_true | exact month_table_false]. Qed.

Lemma in_months (m : Z) : 1 <= m <= 12 -> In m months.
Proof.
  intros H. unfold months.
  assert (m = 1 \/ m = 2 \/ m = 3 \/ m = 4 \/ m = 5 \/ m = 6 \/ m = 7 \/ m = 8
          \/ m = 9 \/ m = 10 \/ m = 11 \/ m = 12) as Hm by lia.
  repeat destruct Hm as [Hm | Hm]; subst; simpl; tauto.
Qed.



Lemma table_mono (b : bool) (m : Z) : 1 <= m <= 12 ->
  0 <= days_before_month b m < days_before_month b (m + 1)
  /\ days_before_month b (m + 1) <= year_length b.
Proof.
  intros Hm. pose proof (month_table b) as T. unfold month_table_ok in T.
  repeat rewrite andb_true_iff in T. destruct T as [[_ T] _].
  rewrite forallb_forall in T. specialize (T m (in_months m Hm)).
  repeat rewrite andb_true_iff in T. destruct T as [[T1 T2] T3]. lia.
Qed.

Lemma table_find (b : bool) (doy : Z) : 0 <= doy < year_length b ->
  1 <= month_of_doy b doy <= 12
  /\ forall m, 1 <= m <= 12 ->
       (days_before_month b m <= doy < days_before_month b (m + 1)
        <-> month_of_doy b doy = m).
Proof.
  intros Hd. pose proof (month_table b) as T. unfold month_table_ok in T.
  repeat rewrite andb_true_iff in T. destruct T as [_ T].
  rewrite forallb_forall in T.
  assert (Hin : In (Z.to_nat doy) (seq 0 (Z.to_nat (year_length b)))).
  { apply in_seq. lia. }
  specialize (T _ Hin). rewrite Z2Nat.id in T by lia. cbv zeta in T.
  repeat rewrite andb_true_iff in T. destruct T as [[T1 T2] T3].
  split; [lia|]. intros m Hm. rewrite forallb_forall in T3.
  specialize (T3 m (in_months m Hm)). apply Bool.eqb_prop in T3.
  destruct (Z.leb_spec (days_before_month b m) doy),
    (Z.ltb_spec doy (days_before_month b (m + 1))),
    (Z.eqb_spec (month_of_doy b doy) m); simpl in T3;
    try discriminate; split; intros; lia.
Qed.













(* ------------------------------------------------------------------ *)
(** ** Further properties of the version checker *)

(** A checker built by [New] redirects a CONNECT only when the target
    splits as host:port and the port is one of the configured tunnel
    ports, or "80" when none were configured. *)
Theorem New_connect_redirect_ports (pr : option Range) (us : string) (u : URL)
    (ports : list string) (pct : F64) (c : VersionChecker) (req : Request) (draw : Z) :
  New pr us (Some u) ports pct = Some c ->
  shouldRedirectOnConnect c req draw = true ->
  exists h p, split_host_port (req_host req) = inr (h, p)
    /\ In p (match ports with [] => ["80"%string] | _ => ports end).
Proof.
  unfold New. destruct pr as [ver|]; [|discriminate].
  intros E. injection E as <-.
  unfold shouldRedirectOnConnect. simpl.
  destruct (matchVersion _ req draw); simpl; [|discriminate].
  destruct (split_host_port (req_host req)) as [err|[h p]]; [discriminate|].
  intros Hx. apply existsb_exists in Hx as [p' [Hin Hp]].
  apply String.eqb_eq in Hp. subst p'. exists h, p. split; [reflexivity|exact Hin].
Qed.

Lemma New_connect_redirect_ports_witness :
  New (Some below3) (example_url_string "http") (Some (example_url "http")) []
      pct_one = Some (example_checker "http" pct_one)
  /\ shouldRedirectOnConnect (example_checker "http" pct_one)
       (connect_req "www.example.com:80" None) 0 = true
  /\ exists h p, split_host_port "www.example.com:80" = inr (h, p) /\ In p ["80"%string].
Proof.
  assert (H1 : New (Some below3) (example_url_string "http") (Some (example_url "http")) []
      pct_one = Some (example_checker "http" pct_one)) by reflexivity.
  assert (H2 : shouldRedirectOnConnect (example_checker "http" pct_one)
       (connect_req "www.example.com:80" None) 0 = true) by reflexivity.
  split; [exact H1|]. split; [exact H2|].
  exact (New_connect_redirect_ports _ _ _ _ _ _ _ _ H1 H2).
Defined.

(** For a checker built by [New], the wrapped dialer returns what the
    given dialer returns, except when the rewrite URL is https, the
    address dialled is exactly the rewrite host with ":443" and the dial
    succeeded: then the connection is wrapped in a TLS client whose
    server name is the rewrite host. *)
Theorem New_Dialer_tls (pr : option Range) (us : string) (u : URL)
    (ports : list string) (pct : F64) (c : VersionChecker) (d : Dial)
    (network address : string) :
  New pr us (Some u) ports pct = Some c ->
  (url_scheme u = "https"%string -> address = (url_host u ++ ":443")%string ->
   snd (d network address) = None ->
   Dialer c d network address = (TLSClient (url_host u) (fst (d network address)), None))
  /\ (url_scheme u <> "https"%string \/ address <> (url_host u ++ ":443")%string
      \/ snd (d network address) <> None ->
      Dialer c d network address = d network address).
Proof.
  unfold New. destruct pr as [ver|]; [|discriminate].
  intros E. injection E as <-. unfold Dialer. simpl.
  destruct (String.eqb_spec (url_scheme u) "https") as [Hs|Hs]; simpl.
  - destruct (d network address) as [conn err] eqn:Hd. simpl. split.
    + intros _ -> ->. rewrite String.eqb_refl. reflexivity.
    + intros [H|[H|H]]; [contradiction| |].
      * destruct err; [reflexivity|].
        destruct (String.eqb_spec (url_host u ++ ":443") address); [|reflexivity].
        symmetry in e. contradiction.
      * destruct err; [reflexivity|contradiction].
  - split; [intros H; contradiction|reflexivity].
Qed.

Lemma New_Dialer_tls_witness :
  let d : Dial := fun _ _ => (NetConn 7, None) in
  New (Some below3) (example_url_string "https") (Some (example_url "https")) []
      pct_one = Some (example_checker "https" pct_one)
  /\ Dialer (example_checker "https" pct_one) d "tcp" "upgrade.example.com:443"
     = (TLSClient "upgrade.example.com" (NetConn 7), None)
  /\ Dialer (example_checker "https" pct_one) d "tcp" "www.example.com:443"
     = (NetConn 7, None).
Proof.
  intros d.
  assert (H1 : New (Some below3) (example_url_string "https") (Some (example_url "https")) []
      pct_one = Some (example_checker "https" pct_one)) by reflexivity.
  split; [exact H1|]. split.
  - apply (proj1 (New_Dialer_tls _ _ _ _ _ _ d "tcp" "upgrade.example.com:443" H1));
      reflexivity.
  - apply (proj2 (New_Dialer_tls _ _ _ _ _ _ d "tcp" "www.example.com:443" H1)).
    right. left. discriminate.
Defined.

(** The three ways [Apply] can go, and the deferred header deletion. *)
Lemma Apply_inv (c : VersionChecker) (e : Env) (req : Request) (draw : Z)
    (o : Outcome) (evs : list Event) (r' : Request) :
  Apply c e req draw = (o, evs, r') ->
  r' = with_header req (header_del (req_header req) VersionHeader) /\
  ((req_method req = MethodConnect /\ shouldRedirectOnConnect c req draw = true
    /\ (o, evs) = redirectOnConnect c e)
   \/ (req_method req = MethodGet /\ shouldRedirect c req draw = true
       /\ o = Returned (Some (redirect_response c)) None /\ evs = [])
   \/ (~ (req_method req = MethodConnect /\ shouldRedirectOnConnect c req draw = true)
       /\ ~ (req_method req = MethodGet /\ shouldRedirect c req draw = true)
       /\ o = Returned (fst (env_next e req)) (snd (env_next e req))
       /\ evs = [EvNext req])).
Proof.
  unfold Apply. destruct (env_next e req) as [resp err] eqn:Hn. simpl.
  destruct (String.eqb_spec (req_method req) MethodConnect) as [Hc|Hc].
  - destruct (shouldRedirectOnConnect c req draw) eqn:Hs.
    + destruct (redirectOnConnect c e) as [o0 evs0] eqn:Hr.
      intros E. injection E as <- <- <-. split; [reflexivity|]. left. auto.
    + intros E. injection E as <- <- <-. split; [reflexivity|]. right. right.
      assert (Hcg : MethodConnect <> MethodGet) by discriminate.
      split; [intros [_ Hx]; discriminate|]. split; [intros [H1 _]; congruence|]. auto.
  - destruct (String.eqb_spec (req_method req) MethodGet) as [Hg|Hg].
    + destruct (shouldRedirect c req draw) eqn:Hs.
      * intros E. injection E as <- <- <-. split; [reflexivity|]. right. left. auto.
      * intros E. injection E as <- <- <-. split; [reflexivity|]. right. right.
        split; [intros [Hx _]; contradiction|]. split; [intros [_ Hx]; discriminate|]. auto.
    + intros E. injection E as <- <- <-. split; [reflexivity|]. right. right.
      split; [intros [Hx _]; contradiction|]. split; [intros [Hx _]; contradiction|]. auto.
Qed.

Lemma matchVersion_true_inv (c : VersionChecker) (req : Request) (draw : Z) :
  matchVersion c req draw = true ->
  req_host req <> url_host (rewriteURL c) /\ draw < ppm c.
Proof.
  unfold matchVersion.
  destruct (String.eqb_spec (req_host req) (url_host (rewriteURL c))); [discriminate|].
  destruct (match semver_make _ with Some v => _ | None => false end); [discriminate|].
  destruct (Z.geb_spec draw (ppm c)); [discriminate|]. intros _. split; [assumption|lia].
Qed.

Lemma redirectOnConnect_no_next (c : VersionChecker) (e : Env) (r : Request) :
  ~ In (EvNext r) (snd (redirectOnConnect c e)).
Proof.
  unfold redirectOnConnect, read_request.
  destruct (conn_write_ok e); simpl; [|tauto].
  destruct (conn_read e); simpl; intuition discriminate.
Qed.

(** A GET either gets the 302 to the rewrite URL without [next] being
    called, which happens only for a browser navigation (Accept starts
    with "text/html", User-Agent with "Mozilla/") to another host than
    the rewrite host with the draw below [ppm]; or it is passed once to
    [next] unchanged and [next]'s result is returned. *)
Theorem Apply_get_redirect_or_next (c : VersionChecker) (e : Env) (req : Request)
    (draw : Z) (o : Outcome) (evs : list Event) (r' : Request) :
  req_method req = MethodGet ->
  Apply c e req draw = (o, evs, r') ->
  (o = Returned (Some (redirect_response c)) None /\ evs = []
   /\ has_prefix (header_get (req_header req) "Accept") "text/html" = true
   /\ has_prefix (header_get (req_header req) "User-Agent") "Mozilla/" = true
   /\ req_host req <> url_host (rewriteURL c) /\ draw < ppm c)
  \/ (o = Returned (fst (env_next e req)) (snd (env_next e req)) /\ evs = [EvNext req]).
Proof.
  intros Hg HA. apply Apply_inv in HA as [_ [[Hc _]|[(_ & Hs & Ho & He)|(_ & _ & Ho & He)]]].
  - rewrite Hg in Hc. discriminate.
  - left. unfold shouldRedirect in Hs.
    destruct (has_prefix (header_get (req_header req) "Accept") "text/html"); [|discriminate].
    destruct (has_prefix (header_get (req_header req) "User-Agent") "Mozilla/");
      [|discriminate].
    apply matchVersion_true_inv in Hs. tauto.
  - right. auto.
Qed.

Lemma Apply_get_redirect_or_next_witness :
  let e := mkEnv true (inl "EOF"%string) (fun _ => (None, None)) in
  let c := example_checker "http" pct_one in
  let req := browser_get "www.example.com" None in
  req_method req = MethodGet /\
  fst (fst (Apply c e req 0)) = Returned (Some (redirect_response c)) None.
Proof.
  intros e c req. split; [reflexivity|].
  destruct (Apply c e req 0) as [[o evs] r'] eqn:HA.
  destruct (Apply_get_redirect_or_next c e req 0 o evs r' eq_refl HA)
    as [(Ho & _)|(_ & He)].
  - exact Ho.
  - exfalso. revert HA. vm_compute. intros E. injection E as _ <- _. discriminate.
Defined.

(** A CONNECT is either passed once to [next] unchanged, with [next]'s
    result returned, or handed to [redirectOnConnect]; the latter only
    when [matchVersion] selects it and the target splits as host:port
    with the port among the checker's tunnel ports. *)
Theorem Apply_connect_redirect_or_next (c : VersionChecker) (e : Env) (req : Request)
    (draw : Z) (o : Outcome) (evs : list Event) (r' : Request) :
  req_method req = MethodConnect ->
  Apply c e req draw = (o, evs, r') ->
  (o = Returned (fst (env_next e req)) (snd (env_next e req)) /\ evs = [EvNext req])
  \/ (matchVersion c req draw = true
      /\ (exists h p, split_host_port (req_host req) = inr (h, p) /\ In p (tunnelPorts c))
      /\ (o, evs) = redirectOnConnect c e).
Proof.
  intros Hc HA.
  apply Apply_inv in HA as [_ [(_ & Hs & Hr)|[(Hg & _)|(_ & _ & Ho & He)]]].
  - right. unfold shouldRedirectOnConnect in Hs.
    destruct (matchVersion c req draw); simpl in Hs; [|discriminate].
    destruct (split_host_port (req_host req)) as [err|[h p]]; [discriminate|].
    apply existsb_exists in Hs as [p' [Hin Hp]]. apply String.eqb_eq in Hp. subst p'.
    split; [reflexivity|]. split; [|exact Hr]. exists h, p. auto.
  - rewrite Hc in Hg. discriminate.
  - left. auto.
Qed.

Lemma Apply_connect_redirect_or_next_witness :
  let e := mkEnv true (inr (browser_get "upgrade.example.com" None)) (fun _ => (None, None)) in
  let c := example_checker "http" pct_one in
  let req := connect_req "www.example.com:8080" None in
  req_method req = MethodConnect /\
  snd (fst (Apply c e req 0)) = [EvNext req].
Proof.
  intros e c req. split; [reflexivity|].
  destruct (Apply c e req 0) as [[o evs] r'] eqn:HA.
  destruct (Apply_connect_redirect_or_next c e req 0 o evs r' eq_refl HA)
    as [(_ & He)|(_ & (h & p & Hsp & Hin) & _)].
  - exact He.
  - exfalso. vm_compute in Hsp. injection Hsp as <- <-. simpl in Hin.
    destruct Hin as [Hin|[]]. discriminate.
Defined.

(** [Apply] calls [next] at most once, always with the request as it
    received it (the version header still present), and then returns
    [next]'s result; for methods other than GET and CONNECT it always
    does so. *)
Theorem Apply_next_once (c : VersionChecker) (e : Env) (req : Request)
    (draw : Z) (o : Outcome) (evs : list Event) (r' : Request) :
  Apply c e req draw = (o, evs, r') ->
  (forall r, In (EvNext r) evs ->
     r = req /\ evs = [EvNext req]
     /\ o = Returned (fst (env_next e req)) (snd (env_next e req)))
  /\ (req_method req <> MethodGet -> req_method req <> MethodConnect ->
      evs = [EvNext req]).
Proof.
  intros HA. apply Apply_inv in HA as [_ [(Hc & _ & Hr)|[(Hg & _ & _ & He)|(_ & _ & Ho & He)]]].
  - split.
    + intros r Hin. exfalso. apply (redirectOnConnect_no_next c e r).
      rewrite <- Hr. exact Hin.
    + intros _ H. contradiction.
  - split.
    + intros r Hin. rewrite He in Hin. destruct Hin.
    + intros H _. contradiction.
  - split; [|auto].
    intros r Hin. rewrite He in Hin. destruct Hin as [Hr|[]].
    injection Hr as ->. auto.
Qed.

Lemma Apply_next_once_witness :
  let e := mkEnv true (inl "EOF"%string) (fun _ => (None, None)) in
  let c := example_checker "http" pct_one in
  let req := mkRequest "POST" "www.example.com" ∅ in
  snd (fst (Apply c e req 0)) = [EvNext req].
Proof.
  intros e c req.
  destruct (Apply c e req 0) as [[o evs] r'] eqn:HA. simpl.
  apply (proj2 (Apply_next_once c e req 0 o evs r' HA)); discriminate.
Defined.

(* ------------------------------------------------------------------ *)
(** ** Further properties of the token filter *)

(** With a configured token, the request [next] receives has no token
    header and is otherwise the request received, and it is only passed
    on when one of the token header's values is the token; with no token
    configured the request is passed on untouched. *)
Theorem token_apply_next_never_sees_token (token : string)
    (next : Request -> option Response * option string) (req : Request)
    (o : Outcome) (evs : list TEvent) (r : Request) :
  token_apply token next req = (o, evs) ->
  In (TEvNext r) evs ->
  (token = EmptyString /\ r = req)
  \/ (token <> EmptyString
      /\ In token (default [] (req_header req !! TokenHeader))
      /\ req_method r = req_method req /\ req_host r = req_host req
      /\ req_header r !! TokenHeader = None
      /\ (forall k, k <> TokenHeader -> req_header r !! k = req_header req !! k)).
Proof.
  unfold token_apply.
  destruct (String.eqb_spec token EmptyString) as [Ht|Ht].
  - destruct (next req) as [resp err]. intros E. injection E as <- <-.
    intros [Hr|[]]. injection Hr as ->. left. auto.
  - destruct (match req_header req !! TokenHeader with
              | Some (t0 :: _) => String.eqb t0 EmptyString | _ => true end).
    + simpl. intros E. injection E as <- <-. simpl. intuition discriminate.
    + destruct (existsb (String.eqb token) (default [] (req_header req !! TokenHeader)))
        eqn:Hm.
      * destruct (next _) as [resp err]. intros E. injection E as <- <-.
        intros [Hr|[Hr|[]]]; [discriminate|]. injection Hr as <-.
        right. apply existsb_exists in Hm as [t [Hin Heq]].
        apply String.eqb_eq in Heq. subst t.
        repeat split; auto.
        -- simpl. unfold header_del. apply lookup_delete_eq.
        -- intros k Hk. simpl. unfold header_del. apply lookup_delete_ne. congruence.
      * simpl. intros E. injection E as <- <-. simpl. intuition discriminate.
Qed.

Lemma token_apply_next_never_sees_token_witness :
  let req := mkRequest "GET" "www.example.com"
               {[ TokenHeader := ["other"%string; "s3cret"%string] ]} in
  let next := fun _ : Request => (None : option Response, None : option string) in
  In (TEvNext (with_header req ∅)) (snd (token_apply "s3cret" next req))
  /\ req_header (with_header req ∅) !! TokenHeader = None.
Proof.
  intros req next.
  assert (Hin : In (TEvNext (with_header req ∅)) (snd (token_apply "s3cret" next req))).
  { right. left. unfold req, with_header, header_del. simpl.
    rewrite delete_singleton_eq. reflexivity. }
  split; [exact Hin|].
  destruct (token_apply "s3cret" next req) as [o evs] eqn:Ht.
  destruct (token_apply_next_never_sees_token "s3cret" next req o evs _ Ht Hin)
    as [[H _]|(_ & _ & _ & _ & H & _)]; [discriminate|exact H].
Defined.

(** With a configured token, a request none of whose token header values
    is the token (including one with no token header) gets the Apache
    decoy: the mimic counter is incremented, the connection is closed,
    [next] is not called and nil is returned. *)
Theorem token_apply_mismatch_mimics (token : string)
    (next : Request -> option Response * option string) (req : Request) :
  token <> EmptyString ->
  ~ In token (default [] (req_header req !! TokenHeader)) ->
  token_apply token next req
  = (Returned None None, [TEvInstrumentMimic true; TEvMimicApache; TEvConnClose]).
Proof.
  intros Ht Hn. unfold token_apply.
  destruct (String.eqb_spec token EmptyString) as [E|_]; [contradiction|].
  destruct (match req_header req !! TokenHeader with
            | Some (t0 :: _) => String.eqb t0 EmptyString | _ => true end);
    [reflexivity|].
  destruct (existsb (String.eqb token) (default [] (req_header req !! TokenHeader)))
    eqn:Hm; [|reflexivity].
  exfalso. apply existsb_exists in Hm as [t [Hin Heq]].
  apply String.eqb_eq in Heq. subst t. contradiction.
Qed.

Lemma token_apply_mismatch_mimics_witness :
  let req := mkRequest "GET" "www.example.com" {[ TokenHeader := ["wrong"%string] ]} in
  let next := fun _ : Request => (None : option Response, None : option string) in
  token_apply "s3cret" next req
  = (Returned None None, [TEvInstrumentMimic true; TEvMimicApache; TEvConnClose]).
Proof.
  intros req next. apply token_apply_mismatch_mimics.
  - discriminate.
  - unfold req. simpl. rewrite lookup_singleton_eq. simpl. intros [H|[]]. discriminate.
Defined.

(* ------------------------------------------------------------------ *)
(** ** [net.SplitHostPort] *)

Lemma list_ascii_of_string_app (s1 s2 : string) :
  list_ascii_of_string (s1 ++ s2) = list_ascii_of_string s1 ++ list_ascii_of_string s2.
Proof. induction s1 as [|a s1 IH]; simpl; [reflexivity|]. rewrite IH. reflexivity. Qed.

Lemma string_of_list_ascii_of_string (s : string) :
  string_of_list_ascii (list_ascii_of_string s) = s.
Proof. induction s as [|a s IH]; simpl; [reflexivity|]. rewrite IH. reflexivity. Qed.

Lemma first_index_none (c : ascii) (l : list ascii) :
  first_index c l = None <-> ~ In c l.
Proof.
  induction l as [|x l IH]; simpl; [tauto|].
  destruct (Ascii.eqb_spec x c) as [->|Hx].
  - split; [discriminate|]. intros H. exfalso. apply H. left. reflexivity.
  - destruct (in_dec ascii_dec c l) as [Hin|Hin].
    + destruct (first_index c l); [|exfalso; apply IH; auto].
      split; [discriminate|]. intros H. exfalso. apply H. right. exact Hin.
    + rewrite (proj2 IH Hin). split; [|reflexivity]. intros _ [E|E]; auto.
Qed.

Lemma contains_false (c : ascii) (l : list ascii) :
  contains c l = false <-> ~ In c l.
Proof.
  unfold contains. rewrite <- first_index_none.
  destruct (first_index c l); split; congruence.
Qed.

Lemma first_index_app (c : ascii) (l1 l2 : list ascii) :
  ~ In c l1 -> first_index c (l1 ++ c :: l2) = Some (length l1).
Proof.
  induction l1 as [|x l1 IH]; intros H; simpl.
  - rewrite Ascii.eqb_refl. reflexivity.
  - destruct (Ascii.eqb_spec x c) as [->|_]; [exfalso; apply H; left; reflexivity|].
    rewrite IH; [reflexivity|]. intros Hin. apply H. right. exact Hin.
Qed.

Lemma last_index_acc_app (c : ascii) (l1 l2 : list ascii) (i : nat) (acc : option nat) :
  last_index_acc c (l1 ++ l2) i acc
  = last_index_acc c l2 (i + length l1) (last_index_acc c l1 i acc).
Proof.
  revert i acc. induction l1 as [|x l1 IH]; intros i acc; simpl.
  - rewrite Nat.add_0_r. reflexivity.
  - rewrite IH. f_equal. lia.
Qed.

Lemma last_index_acc_notin (c : ascii) (l : list ascii) (i : nat) (acc : option nat) :
  ~ In c l -> last_index_acc c l i acc = acc.
Proof.
  revert i acc. induction l as [|x l IH]; intros i acc H; simpl; [reflexivity|].
  destruct (Ascii.eqb_spec x c) as [->|_]; [exfalso; apply H; left; reflexivity|].
  apply IH. intros Hin. apply H. right. exact Hin.
Qed.

(** The last [c] of [l1 ++ c :: l2] when [l2] has none. *)
Lemma last_index_app (c : ascii) (l1 l2 : list ascii) :
  ~ In c l2 -> last_index c (l1 ++ c :: l2) = Some (length l1).
Proof.
  intros H. unfold last_index.
  replace (l1 ++ c :: l2) with ((l1 ++ [c]) ++ l2) by (rewrite <- app_assoc; reflexivity).
  rewrite last_index_acc_app, last_index_acc_notin by exact H.
  rewrite last_index_acc_app. simpl. rewrite Ascii.eqb_refl. reflexivity.
Qed.

(** The test on the first character in [split_host_port]. *)
Lemma bracket_match_other {A : Type} (B P : A) (l : list ascii) :
  hd_error l <> Some "["%char ->
  match l with "["%char :: _ => B | _ => P end = P.
Proof.
  intros H. destruct l as [|a l]; [reflexivity|].
  destruct a as [[] [] [] [] [] [] [] []]; try reflexivity.
  exfalso. apply H. reflexivity.
Qed.

(** [net.SplitHostPort] inverts the "host:port" join: a host and a port
    with no colon or square bracket come back unchanged (either may be
    empty). *)
Theorem split_host_port_join (host port : string) :
  contains ":"%char (list_ascii_of_string host) = false ->
  contains "["%char (list_ascii_of_string host) = false ->
  contains "]"%char (list_ascii_of_string host) = false ->
  contains ":"%char (list_ascii_of_string port) = false ->
  contains "["%char (list_ascii_of_string port) = false ->
  contains "]"%char (list_ascii_of_string port) = false ->
  split_host_port (host ++ ":" ++ port) = inr (host, port).
Proof.
  intros Hh1 Hh2 Hh3 Hp1 Hp2 Hp3.
  replace (":" ++ port)%string with (String ":" port) by reflexivity.
  unfold split_host_port. rewrite list_ascii_of_string_app. simpl (list_ascii_of_string (String _ _)).
  set (lh := list_ascii_of_string host) in *. set (lp := list_ascii_of_string port) in *.
  rewrite last_index_app by (apply contains_false; exact Hp1).
  rewrite bracket_match_other.
  2:{ destruct lh as [|a lh']; simpl; [congruence|]. intros E. injection E as ->.
      apply contains_false in Hh2. apply Hh2. left. reflexivity. }
  rewrite take_app_length, Hh1.
  assert (Hb1 : contains "["%char (drop 0 (lh ++ ":"%char :: lp)) = false).
  { apply contains_false. rewrite drop_0, in_app_iff. intros [H|[H|H]].
    - apply contains_false in Hh2. contradiction.
    - discriminate.
    - apply contains_false in Hp2. contradiction. }
  assert (Hb2 : contains "]"%char (drop 0 (lh ++ ":"%char :: lp)) = false).
  { apply contains_false. rewrite drop_0, in_app_iff. intros [H|[H|H]].
    - apply contains_false in Hh3. contradiction.
    - discriminate.
    - apply contains_false in Hp3. contradiction. }
  rewrite Hb1, Hb2.
  replace (drop (S (length lh)) (lh ++ ":"%char :: lp)) with lp.
  2:{ replace (lh ++ ":"%char :: lp) with ((lh ++ [":"%char]) ++ lp)
        by (rewrite <- app_assoc; reflexivity).
      replace (S (length lh)) with (length (lh ++ [":"%char]))
        by (rewrite length_app; simpl; lia).
      rewrite drop_app_length. reflexivity. }
  unfold lh, lp. rewrite !string_of_list_ascii_of_string. reflexivity.
Qed.

Lemma split_host_port_join_witness :
  split_host_port ("www.example.com" ++ ":" ++ "80") = inr ("www.example.com"%string, "80"%string).
Proof. apply split_host_port_join; reflexivity. Defined.

(** The bracketed form "[host]:port" (IPv6 literals): the host may
    contain colons; without square brackets in the host and without
    colons or square brackets in the port, both come back unchanged. *)
Theorem split_host_port_join_bracketed (host port : string) :
  contains "["%char (list_ascii_of_string host) = false ->
  contains "]"%char (list_ascii_of_string host) = false ->
  contains ":"%char (list_ascii_of_string port) = false ->
  contains "["%char (list_ascii_of_string port) = false ->
  contains "]"%char (list_ascii_of_string port) = false ->
  split_host_port ("[" ++ host ++ "]:" ++ port) = inr (host, port).
Proof.
  intros Hh2 Hh3 Hp1 Hp2 Hp3.
  set (lh := list_ascii_of_string host) in *. set (lp := list_ascii_of_string port) in *.
  assert (Hl : list_ascii_of_string ("[" ++ host ++ "]:" ++ port)
               = "["%char :: (lh ++ ["]"%char]) ++ ":"%char :: lp).
  { replace ("[" ++ host ++ "]:" ++ port)%string
      with (String "[" (host ++ String "]" (String ":" port))) by reflexivity.
    simpl. rewrite list_ascii_of_string_app. simpl. rewrite <- app_assoc. reflexivity. }
  assert (Hi : last_index ":"%char ("["%char :: (lh ++ ["]"%char]) ++ ":"%char :: lp)
               = Some (S (S (length lh)))).
  { change ("["%char :: (lh ++ ["]"%char]) ++ ":"%char :: lp)
      with (("["%char :: lh ++ ["]"%char]) ++ ":"%char :: lp).
    rewrite last_index_app by (apply contains_false; exact Hp1).
    simpl. rewrite length_app. simpl. f_equal. lia. }
  assert (Hf : first_index "]"%char ("["%char :: (lh ++ ["]"%char]) ++ ":"%char :: lp)
               = Some (S (length lh))).
  { simpl. rewrite <- app_assoc. simpl.
    rewrite first_index_app by (apply contains_false; exact Hh3). reflexivity. }
  assert (H1 : (S (S (length lh)) =?
                length ("["%char :: (lh ++ ["]"%char]) ++ ":"%char :: lp))%nat = false).
  { apply Nat.eqb_neq. simpl. rewrite !length_app. simpl. lia. }
  assert (HA : take (S (length lh) - 1)
                 (drop 1 ("["%char :: (lh ++ ["]"%char]) ++ ":"%char :: lp)) = lh).
  { simpl. rewrite Nat.sub_0_r, <- app_assoc. apply take_app_length. }
  assert (HB : contains "["%char
                 (drop 1 ("["%char :: (lh ++ ["]"%char]) ++ ":"%char :: lp)) = false).
  { apply contains_false. simpl. rewrite <- app_assoc, drop_0, in_app_iff.
    intros [H|[H|[H|H]]]; try discriminate.
    - apply contains_false in Hh2. contradiction.
    - apply contains_false in Hp2. contradiction. }
  assert (HC : contains "]"%char
      (drop (S (S (length lh))) ("["%char :: (lh ++ ["]"%char]) ++ ":"%char :: lp)) = false).
  { apply contains_false.
    change ("["%char :: (lh ++ ["]"%char]) ++ ":"%char :: lp)
      with (("["%char :: lh ++ ["]"%char]) ++ ":"%char :: lp).
    replace (S (S (length lh))) with (length ("["%char :: lh ++ ["]"%char]))
      by (simpl; rewrite length_app; simpl; lia).
    rewrite drop_app_length. intros [H|H]; [discriminate|].
    apply contains_false in Hp3. contradiction. }
  assert (HD : drop (S (S (S (length lh))))
                 ("["%char :: (lh ++ ["]"%char]) ++ ":"%char :: lp) = lp).
  { change ("["%char :: (lh ++ ["]"%char]) ++ ":"%char :: lp)
      with (("["%char :: lh ++ ["]"%char]) ++ ":"%char :: lp).
    replace (S (S (S (length lh))))
      with (length (("["%char :: lh ++ ["]"%char]) ++ [":"%char]))
      by (rewrite !length_app; simpl; rewrite length_app; simpl; lia).
    rewrite (app_assoc _ [":"%char] lp). apply drop_app_length. }
  unfold split_host_port. rewrite Hl, Hi, Hf, H1.
  cbn beta iota zeta. rewrite Nat.eqb_refl.
  cbn beta iota zeta. rewrite HA, HB, HC, HD.
  unfold lh, lp. rewrite !string_of_list_ascii_of_string. reflexivity.
Qed.

Lemma split_host_port_join_bracketed_witness :
  split_host_port ("[" ++ "::1" ++ "]:" ++ "443") = inr ("::1"%string, "443"%string).
Proof. apply split_host_port_join_bracketed; reflexivity. Defined.

(* ------------------------------------------------------------------ *)
(** ** Further properties of the usage reporter *)

Lemma wrap64_small (z : Z) : int64_ok z = true -> wrap64 z = z.
Proof.
  unfold int64_ok, wrap64. intros H. apply andb_true_iff in H as [H1 H2].
  apply Z.leb_le in H1. apply Z.ltb_lt in H2. rewrite Z.mod_small by lia. lia.
Qed.

Lemma wrap64_ok (z : Z) : int64_ok (wrap64 z) = true.
Proof.
  unfold int64_ok, wrap64. pose proof (Z.mod_pos_bound (z + 2 ^ 63) (2 ^ 64)).
  apply andb_true_intro. split; [apply Z.leb_le | apply Z.ltb_lt]; lia.
Qed.

Lemma wrap64_add_l (a b : Z) : wrap64 (wrap64 a + b) = wrap64 (a + b).
Proof.
  unfold wrap64.
  replace ((a + 2 ^ 63) mod 2 ^ 64 - 2 ^ 63 + b + 2 ^ 63)
    with ((a + 2 ^ 63) mod 2 ^ 64 + b) by ring.
  rewrite Z.add_mod_idemp_l by lia.
  replace (a + 2 ^ 63 + b) with (a + b + 2 ^ 63) by ring. reflexivity.
Qed.

(** Over received values whose device ID is absent or a string, with
    stats and map entries that are 64-bit integers, the receive branch
    never panics, leaves Redis alone, and the map then holds, for every
    device, the sum in Go's [int] (wrapping around) of the stats it held
    before and of the device's received deltas (and no entry for a device
    with neither). *)
Theorem run_samples_totals (l : list (option CtxValue * Stats)) (rs : RState) :
  (forall o s, In (o, s) l -> o <> Some CtxOther) ->
  (forall o s, In (o, s) l ->
     int64_ok (SentTotal s) = true /\ int64_ok (RecvTotal s) = true) ->
  (forall d ex, statsByDeviceID rs !! d = Some ex ->
     int64_ok (SentTotal ex) = true /\ int64_ok (RecvTotal ex) = true) ->
  exists rs', run_samples l rs = Some rs' /\ store rs' = store rs /\
    forall d, statsByDeviceID rs' !! d =
      match (match statsByDeviceID rs !! d with Some ex => [ex] | None => [] end)
            ++ device_samples d l with
      | [] => None
      | ss => Some (stats_sum ss)
      end.
Proof.
  revert rs. induction l as [|[o s] l IH]; intros rs Hl Hr Hex.
  - exists rs. split; [reflexivity|]. split; [reflexivity|].
    intros d. cbn [run_samples device_samples List.filter map app].
    destruct (statsByDeviceID rs !! d) as [ex|] eqn:E; [|reflexivity].
    destruct (Hex d ex E) as [H1 H2]. destruct ex as [a b]. cbn [app].
    unfold stats_sum. cbn [fold_right SentTotal RecvTotal] in *.
    rewrite !Z.add_0_r, (wrap64_small a H1), (wrap64_small b H2). reflexivity.
  - assert (Hl' : forall o s, In (o, s) l -> o <> Some CtxOther).
    { intros o' s' Hin. apply (Hl o' s'). right. exact Hin. }
    assert (Hr' : forall o s, In (o, s) l ->
                  int64_ok (SentTotal s) = true /\ int64_ok (RecvTotal s) = true).
    { intros o' s' Hin. apply (Hr o' s'). right. exact Hin. }
    destruct (Hr o s (or_introl eq_refl)) as [Hs1 Hs2].
    destruct o as [[d0|]|].
    + cbn [run_samples sample_step]. destruct (statsByDeviceID rs !! d0) as [ex|] eqn:Hexd.
      * set (rs1 := mkRState (store rs)
                      (<[d0 := mkStats (wrap64 (SentTotal ex + SentTotal s))
                                       (wrap64 (RecvTotal ex + RecvTotal s))]>
                         (statsByDeviceID rs))).
        assert (Hex1 : forall d ex', statsByDeviceID rs1 !! d = Some ex' ->
                   int64_ok (SentTotal ex') = true /\ int64_ok (RecvTotal ex') = true).
        { intros d ex' E. unfold rs1 in E. cbn [statsByDeviceID] in E.
          destruct (String.eqb_spec d0 d) as [<-|Hne].
          - rewrite lookup_insert_eq in E. injection E as <-. split; apply wrap64_ok.
          - rewrite lookup_insert_ne in E by exact Hne. exact (Hex d ex' E). }
        destruct (IH rs1 Hl' Hr' Hex1) as (rs' & Hrun & Hst & Hd).
        exists rs'. split; [exact Hrun|]. split; [exact Hst|]. intros d.
        rewrite Hd. unfold rs1. cbn [statsByDeviceID].
        destruct (String.eqb_spec d0 d) as [<-|Hne].
        -- rewrite lookup_insert_eq, Hexd. unfold device_samples.
           cbn [List.filter map app]. rewrite String.eqb_refl.
           fold (device_samples d0 l). cbn [map app]. f_equal.
           unfold stats_sum. cbn [fold_right SentTotal RecvTotal].
           rewrite !wrap64_add_l. cbn [snd]. fold (device_samples d0 l). f_equal; f_equal; ring.
        -- rewrite lookup_insert_ne by exact Hne. unfold device_samples.
           cbn [List.filter map app].
           apply String.eqb_neq in Hne. rewrite Hne. reflexivity.
      * set (rs1 := mkRState (store rs) (<[d0 := s]> (statsByDeviceID rs))).
        assert (Hex1 : forall d ex', statsByDeviceID rs1 !! d = Some ex' ->
                   int64_ok (SentTotal ex') = true /\ int64_ok (RecvTotal ex') = true).
        { intros d ex' E. unfold rs1 in E. cbn [statsByDeviceID] in E.
          destruct (String.eqb_spec d0 d) as [<-|Hne].
          - rewrite lookup_insert_eq in E. injection E as <-. split; assumption.
          - rewrite lookup_insert_ne in E by exact Hne. exact (Hex d ex' E). }
        destruct (IH rs1 Hl' Hr' Hex1) as (rs' & Hrun & Hst & Hd).
        exists rs'. split; [exact Hrun|]. split; [exact Hst|]. intros d.
        rewrite Hd. unfold rs1. cbn [statsByDeviceID].
        destruct (String.eqb_spec d0 d) as [<-|Hne].
        -- rewrite lookup_insert_eq, Hexd. unfold device_samples.
           cbn [List.filter map app]. rewrite String.eqb_refl. reflexivity.
        -- rewrite lookup_insert_ne by exact Hne. unfold device_samples.
           cbn [List.filter map app].
           apply String.eqb_neq in Hne. rewrite Hne. reflexivity.
    + exfalso. apply (Hl (Some CtxOther) s); [left; reflexivity|reflexivity].
    + cbn [run_samples sample_step]. apply IH; assumption.
Qed.

(** Device "a" sends the largest [int] and then 1 bytes: its total
    wraps around to the smallest [int]. *)
Lemma run_samples_totals_witness :
  let l := [(Some (CtxString "a"), mkStats (2 ^ 63 - 1) 2); (None, mkStats 5 5);
            (Some (CtxString "b"), mkStats 3 4); (Some (CtxString "a"), mkStats 1 20)] in
  exists rs', run_samples l (mkRState ∅ ∅) = Some rs'
    /\ statsByDeviceID rs' !! "a"%string = Some (mkStats (- 2 ^ 63) 22).
Proof.
  intros l.
  destruct (run_samples_totals l (mkRState ∅ ∅)) as (rs' & Hr & _ & Hd).
  { intros o s Hin. simpl in Hin.
    destruct Hin as [E|[E|[E|[E|[]]]]]; injection E as <- _; discriminate. }
  { intros o s Hin. simpl in Hin.
    destruct Hin as [E|[E|[E|[E|[]]]]]; injection E as _ <-; split; reflexivity. }
  { intros d ex E. simpl in E. rewrite lookup_empty in E. discriminate. }
  exists rs'. split; [exact Hr|]. rewrite Hd. vm_compute. reflexivity.
Defined.

(** A received value whose ["deviceid"] is neither absent nor a string
    makes the type assertion panic, which ends the reporting goroutine:
    whatever came before or after it. *)
Theorem run_samples_non_string_panics (l : list (option CtxValue * Stats))
    (rs : RState) (s : Stats) :
  In (Some CtxOther, s) l -> run_samples l rs = None.
Proof.
  revert rs. induction l as [|[o s0] l IH]; intros rs Hin; [destruct Hin|].
  destruct Hin as [E|Hin].
  - injection E as E1 _. subst o. reflexivity.
  - simpl. destruct (sample_step o s0 rs); [apply IH; exact Hin|reflexivity].
Qed.

Lemma run_samples_non_string_panics_witness :
  run_samples [(Some (CtxString "a"), mkStats 1 2); (Some CtxOther, mkStats 3 4)]
    (mkRState ∅ ∅) = None.
Proof. apply (run_samples_non_string_panics _ _ (mkStats 3 4)). right. left. reflexivity. Defined.




(* ------------------------------------------------------------------ *)
(** ** Further calendar properties *)

(** [time.Date] and the [Year]/[Month]/[Day] accessors agree: a valid
    date converted to a day number and back is the same date, and
    midnight of that date in a location is in that date's year and
    month there. *)
Theorem civil_from_days_from_civil (loc y m d : Z) :
  1 <= m <= 12 ->
  1 <= d <= days_before_month (is_leap y) (m + 1) - days_before_month (is_leap y) m ->
  civil_from_days (days_from_civil y m d) = (y, m, d)
  /\ year_month loc (date_midnight loc y m d) = (y, m).
Proof.
  intros Hm Hd.
  pose proof (table_mono (is_leap y) m Hm) as Ht.
  assert (Hc : civil_from_days (days_from_civil y m d) = (y, m, d)).
  { unfold civil_from_days, days_from_civil.
    set (D := days_before_year y + days_before_month (is_leap y) m + d - 1
              - unix_epoch_days + unix_epoch_days).
    assert (Hy : year_of_days D = y).
    { apply year_of_days_unique. rewrite days_before_year_step. unfold D. lia. }
    rewrite Hy.
    destruct (table_find (is_leap y) (D - days_before_year y) ltac:(unfold D; lia))
      as [_ Hf].
    assert (Hmo : month_of_doy (is_leap y) (D - days_before_year y) = m).
    { apply (Hf m Hm). unfold D. lia. }
    rewrite Hmo. f_equal. unfold D. lia. }
  split; [exact Hc|].
  unfold year_month, date_midnight.
  replace ((days_from_civil y m d * ns_per_day - loc + loc) / ns_per_day)
    with (days_from_civil y m d)
    by (rewrite Z.sub_add; symmetry; apply Z.div_mul; unfold ns_per_day; lia).
  rewrite Hc. reflexivity.
Qed.

Lemma civil_from_days_from_civil_witness :
  civil_from_days (days_from_civil 2024 2 29) = (2024, 2, 29)
  /\ year_month (3600 * 1000000000) (date_midnight (3600 * 1000000000) 2024 2 29) = (2024, 2).
Proof. apply civil_from_days_from_civil; vm_compute; split; discriminate. Defined.

(* ------------------------------------------------------------------ *)
(** ** [semver.Make] on release versions *)

Lemma parse_num_digits (s : string) (x : Z) :
  parse_num s = Some x -> str_forallb is_digit s = true /\ s <> EmptyString.
Proof.
  unfold parse_num. destruct (str_forallb is_digit s); simpl; [|discriminate].
  destruct (_ && _); [discriminate|].
  destruct (String.eqb_spec s EmptyString); [discriminate|]. intros _. auto.
Qed.

Lemma split_on_digits (sep : ascii) (s r : string) :
  str_forallb is_digit s = true -> is_digit sep = false ->
  split_on sep s = [s] /\ split_on sep (s ++ String sep r) = s :: split_on sep r.
Proof.
  intros Hs Hsep. induction s as [|c s IH]; simpl.
  - rewrite Ascii.eqb_refl. auto.
  - simpl in Hs. apply andb_true_iff in Hs as [Hc Hs].
    destruct (IH Hs) as [H1 H2].
    destruct (Ascii.eqb_spec c sep) as [->|_]; [congruence|].
    rewrite H1, H2. auto.
Qed.

Lemma cut_at_digits (sep : ascii) (s : string) :
  str_forallb is_digit s = true -> is_digit sep = false -> cut_at sep s = None.
Proof.
  intros Hs Hsep. induction s as [|c s IH]; simpl; [reflexivity|].
  simpl in Hs. apply andb_true_iff in Hs as [Hc Hs].
  destruct (Ascii.eqb_spec c sep) as [->|_]; [congruence|].
  rewrite IH by exact Hs. reflexivity.
Qed.

(** [semver.Make] on "X.Y.Z" whose three parts are valid version numbers
    (decimal digits, no leading zero, below 2^64) gives the release
    version (X, Y, Z), with no pre-release and no build metadata. *)
Theorem semver_make_release (a b c : string) (x y z : Z) :
  parse_num a = Some x -> parse_num b = Some y -> parse_num c = Some z ->
  semver_make (a ++ "." ++ b ++ "." ++ c) = Some (mkVersion x y z [] []).
Proof.
  intros Ha Hb Hc.
  destruct (parse_num_digits a x Ha) as [Da Na].
  destruct (parse_num_digits b y Hb) as [Db _].
  destruct (parse_num_digits c z Hc) as [Dc _].
  assert (Hdot : is_digit "."%char = false) by reflexivity.
  unfold semver_make.
  destruct (String.eqb_spec (a ++ "." ++ b ++ "." ++ c) EmptyString) as [E|_].
  { destruct a; [contradiction|discriminate]. }
  unfold splitn3_dot.
  replace ("." ++ b ++ "." ++ c)%string with (String "." (b ++ String "." c))
    by reflexivity.
  rewrite (proj2 (split_on_digits _ a _ Da Hdot)).
  rewrite (proj2 (split_on_digits _ b _ Db Hdot)).
  rewrite (proj1 (split_on_digits _ c EmptyString Dc Hdot)).
  simpl String.concat. rewrite Ha, Hb.
  rewrite (cut_at_digits "+"%char c Dc eq_refl), (cut_at_digits "-"%char c Dc eq_refl).
  rewrite Hc. reflexivity.
Qed.

Lemma semver_make_release_witness :
  semver_make ("3" ++ "." ++ "10" ++ "." ++ "0") = Some (mkVersion 3 10 0 [] []).
Proof. apply semver_make_release; reflexivity. Defined.
